(** * REINFORCE on CartPole: the return calculator and the training loop

    A shallow embedding of the algorithmic kernel of
    [8_Reinforcement/8.3-EXE_Policy_Gradient.ipynb]:

    - [compute_returns], the backward pass that turns a reward sequence
      into discounted returns;
    - [PolicyNet.loss], the REINFORCE surrogate loss;
    - the training cell: rollout collection, bookkeeping, validation and
      the [try ... except KeyboardInterrupt] around them;
    - [moving_average], which smooths the curves of the plots.

    Python values are modelled as follows.  A one-dimensional numpy array
    or a Python list is a [list]; an index is a [Z], so that negative
    indices wrap around as they do in Python, and an index out of range
    raises [IndexError].  A computation that may raise returns a
    [result].  The arithmetic of array elements is a parameter (the class
    [Scalar]); its instance [float_scalar] is IEEE 754 binary64, the
    element type of [np.zeros], [Qc_scalar] is exact rational arithmetic,
    and [term_scalar] builds the expressions that are computed.  The
    environment, the policy network, its optimizer and the sampler are
    parameters of the training cell, which acts on them through a state
    that survives exceptions. *)

From Stdlib Require Import ZArith QArith Qcanon Floats Lia.
From stdpp Require Import base option list gmap.

Set Default Proof Using "Type*".
Set Warnings "-inexact-float".

(** ** Exceptions and results *)

Inductive exn : Type :=
  | IndexError
  | ValueError
  | TypeError
  | RuntimeError
  | ZeroDivisionError
  | KeyboardInterrupt.

Global Instance exn_eq_dec : EqDecision exn.
Proof. solve_decision. Defined.

Inductive result (X : Type) : Type :=
  | Ok (x : X)
  | Raise (e : exn).
Global Arguments Ok {X} x.
Global Arguments Raise {X} e.

Global Instance result_ret : MRet result := fun _ x => Ok x.
Global Instance result_bind : MBind result := fun _ _ f m =>
  match m with
  | Ok x => f x
  | Raise e => Raise e
  end.

(** [for x in xs: st = body(st, x)], stopping at the first exception. *)
Fixpoint for_each {X St : Type} (xs : list X) (st : St)
    (body : St -> X -> result St) : result St :=
  match xs with
  | [] => Ok st
  | x :: xs' => st' ← body st x; for_each xs' st' body
  end.

(** ** Python sequences *)

(** [len(l)] *)
Definition len {X : Type} (l : list X) : Z := Z.of_nat (length l).

(** [range(n)]: empty when [n <= 0]. *)
Definition range (n : Z) : list Z := Z.of_nat <$> seq 0 (Z.to_nat n).

(** The position an index [i] denotes in a sequence of [n] elements:
    [i] itself when [0 <= i < n], [n + i] when [-n <= i < 0]. *)
Definition norm_index (n : nat) (i : Z) : option nat :=
  if bool_decide (0 <= i < Z.of_nat n)%Z then Some (Z.to_nat i)
  else if bool_decide (- Z.of_nat n <= i < 0)%Z then Some (Z.to_nat (Z.of_nat n + i))
  else None.

(** [l[i]] *)
Definition getitem {X : Type} (l : list X) (i : Z) : result X :=
  match norm_index (length l) i with
  | Some k => match l !! k with Some x => Ok x | None => Raise IndexError end
  | None => Raise IndexError
  end.

(** [l[i] = x], on a sequence updated in place. *)
Definition setitem {X : Type} (l : list X) (i : Z) (x : X) : result (list X) :=
  match norm_index (length l) i with
  | Some k => Ok (<[k:=x]> l)
  | None => Raise IndexError
  end.

(** ** Element arithmetic *)

Class Scalar (A : Type) : Type := {
  szero : A;
  sone : A;
  sadd : A -> A -> A;
  smul : A -> A -> A
}.

Declare Scope scalar_scope.
Delimit Scope scalar_scope with S.
Infix "+" := sadd : scalar_scope.
Infix "*" := smul : scalar_scope.

(** binary64, as numpy's [float64] and Python's [float]. *)
Global Instance float_scalar : Scalar float := {
  szero := 0%float;
  sone := 1%float;
  sadd := PrimFloat.add;
  smul := PrimFloat.mul
}.

(** Exact rationals. *)
Global Instance Qc_scalar : Scalar Qc := {
  szero := 0%Qc;
  sone := 1%Qc;
  sadd := Qcplus;
  smul := Qcmult
}.

(** ** The return calculator *)

Section ReturnCalculator.
Context {A : Type} `{Scalar A}.

(** [np.zeros(n)] *)
Definition np_zeros (n : Z) : list A := replicate (Z.to_nat n) szero.

(** The loop body [returns[t] = rewards[t] + discount_factor * returns[t+1]]. *)
Definition returns_step (rewards : list A) (discount_factor : A)
    (returns : list A) (t : Z) : result (list A) :=
  r ← getitem rewards t;
  g ← getitem returns (t + 1)%Z;
  setitem returns t (r + discount_factor * g)%S.

(** [[
    def compute_returns(rewards, discount_factor):
        returns = np.zeros(len(rewards))
        returns[-1] = rewards[-1]
        for t in reversed(range(len(rewards)-1)):
            returns[t] = rewards[t] + discount_factor * returns[t+1]
        return returns
    ]] *)
Definition compute_returns (rewards : list A) (discount_factor : A)
    : result (list A) :=
  let returns := np_zeros (len rewards) in
  r ← getitem rewards (-1)%Z;
  returns ← setitem returns (-1)%Z r;
  returns ← for_each (reverse (range (len rewards - 1)%Z)) returns
              (returns_step rewards discount_factor);
  Ok returns.

(** Python's built-in [sum(l)]: a left fold that starts from [0]. *)
Definition py_sum (l : list A) : A := foldl sadd szero l.

(** The sum accumulated from the last element to the first:
    [R[0] + (R[1] + (... + R[N-1]))]. *)
Fixpoint sum_from_last (l : list A) : A :=
  match l with
  | [] => szero
  | [r] => r
  | r :: rest => (r + sum_from_last rest)%S
  end.

(** The returns as the specification defines them, by the backward
    recurrence [G[N-1] = R[N-1]], [G[t] = R[t] + γ * G[t+1]]. *)
Fixpoint discounted (discount_factor : A) (rewards : list A) : list A :=
  match rewards with
  | [] => []
  | r :: rest =>
      match discounted discount_factor rest with
      | [] => [r]
      | g :: G => (r + discount_factor * g)%S :: g :: G
      end
  end.

End ReturnCalculator.


(** ** Stateful computations

    A computation that reads and updates a state [St] and either returns or
    raises.  The state survives an exception: what was written before the
    raise stays written. *)

Definition stateful (St X : Type) : Type := St -> result X * St.

Global Instance stateful_ret {St : Type} : MRet (stateful St) :=
  fun _ x st => (Ok x, st).
Global Instance stateful_bind {St : Type} : MBind (stateful St) :=
  fun _ _ f m st =>
    match m st with
    | (Ok x, st') => f x st'
    | (Raise e, st') => (Raise e, st')
    end.

(** A pure computation that may raise, run inside a stateful one. *)
Definition lift {St X : Type} (r : result X) : stateful St X :=
  fun st => (r, st).

(** [raise e] *)
Definition raise {St X : Type} (e : exn) : stateful St X :=
  fun st => (Raise e, st).

(** [for x in xs: acc = body(acc, x)] in a stateful computation. *)
Fixpoint for_in {St X Acc : Type} (xs : list X) (acc : Acc)
    (body : Acc -> X -> stateful St Acc) : stateful St Acc :=
  match xs with
  | [] => mret acc
  | x :: xs' => acc' ← body acc x; for_in xs' acc' body
  end.

(** [[
    try:
        body
    except KeyboardInterrupt:
        handler
    ]] *)
Definition try_except_KeyboardInterrupt {St X : Type}
    (body handler : stateful St X) : stateful St X :=
  fun st =>
    match body st with
    | (Raise KeyboardInterrupt, st') => handler st'
    | (Raise e, st') => (Raise e, st')
    | (Ok x, st') => (Ok x, st')
    end.

(** ** The return calculator on arrays with identity

    The same function with numpy arrays as objects on a heap: [rewards] is
    a reference, [np.zeros] allocates a new array, and item assignment
    updates the array it is applied to.  A reference that was never
    allocated reads as the empty array (Python has no such references). *)

Section ReturnCalculatorHeap.
Context {A : Type} `{Scalar A}.

Definition heap_read (h : gmap nat (list A)) (l : nat) : list A :=
  default [] (h !! l).

Definition heap_alloc (v : list A) : stateful (gmap nat (list A)) nat :=
  fun h => let l := fresh (dom h) in (Ok l, <[l:=v]> h).

Definition heap_len (l : nat) : stateful (gmap nat (list A)) Z :=
  fun h => (Ok (len (heap_read h l)), h).

Definition heap_getitem (l : nat) (i : Z) : stateful (gmap nat (list A)) A :=
  fun h => (getitem (heap_read h l) i, h).

Definition heap_setitem (l : nat) (i : Z) (x : A)
    : stateful (gmap nat (list A)) unit :=
  fun h =>
    match setitem (heap_read h l) i x with
    | Ok v => (Ok tt, <[l:=v]> h)
    | Raise e => (Raise e, h)
    end.

Definition heap_returns_step (rewards : nat) (discount_factor : A)
    (returns : nat) (t : Z) : stateful (gmap nat (list A)) nat :=
  r ← heap_getitem rewards t;
  g ← heap_getitem returns (t + 1)%Z;
  _ ← heap_setitem returns t (r + discount_factor * g)%S;
  mret returns.

Definition heap_compute_returns (rewards : nat) (discount_factor : A)
    : stateful (gmap nat (list A)) nat :=
  n ← heap_len rewards;
  returns ← heap_alloc (np_zeros n);
  r ← heap_getitem rewards (-1)%Z;
  _ ← heap_setitem returns (-1)%Z r;
  n ← heap_len rewards;
  for_in (reverse (range (n - 1)%Z)) returns
    (heap_returns_step rewards discount_factor).

(** What a call hands back to its caller: the contents of the array it
    returns, or the exception. *)
Definition outcome (r : result nat * gmap nat (list A)) : result (list A) :=
  l ← r.1; Ok (heap_read r.2 l).

End ReturnCalculatorHeap.

(** ** The policy's loss *)

(** The tensor operations the loss and the monitoring use, beside [+] and
    [*]: negation, division, the natural logarithm, the conversion of an
    element count to a scalar, and the conversion [.float()] to single
    precision. *)
Class TensorOps (A : Type) : Type := {
  sneg : A -> A;
  sdiv : A -> A -> A;
  slog : A -> A;
  sof_nat : nat -> A;
  sfloat32 : A -> A
}.

(** A list of results, in order, up to the first exception. *)
Fixpoint sequence_results {X : Type} (rs : list (result X)) : result (list X) :=
  match rs with
  | [] => Ok []
  | r :: rs' => x ← r; xs ← sequence_results rs'; Ok (x :: xs)
  end.

Section Tensors.
Context {A : Type} `{Scalar A} `{TensorOps A}.

(** [torch.log(x)], element-wise. *)
Definition torch_log (x : list A) : list A := slog <$> x.

(** [torch.mul(x, y)] on one-dimensional tensors: element-wise when the
    sizes agree, a tensor of one element is broadcast, and any other pair
    of sizes is a [RuntimeError]. *)
Definition torch_mul (x y : list A) : result (list A) :=
  if bool_decide (length x = length y) then Ok (zip_with smul x y)
  else match x, y with
       | [a], _ => Ok (smul a <$> y)
       | _, [b] => Ok ((fun a => smul a b) <$> x)
       | _, _ => Raise RuntimeError
       end.

(** The sum of the elements, accumulated from the first to the last.
    (The libraries leave the order of accumulation open; it matters only
    to the rounding.) *)
Definition tensor_sum (x : list A) : A := foldl sadd szero x.

(** [torch.mean(x)] and [np.mean(x)]: the sum over the number of elements. *)
Definition torch_mean (x : list A) : A :=
  sdiv (tensor_sum x) (sof_nat (length x)).

(** The sum of [f t] over the timesteps [t = 0, ..., N-1], and their mean. *)
Definition sum_over (N : nat) (f : nat -> A) : A :=
  foldl (fun acc t => acc + f t)%S szero (seq 0 N).

Definition mean_over (N : nat) (f : nat -> A) : A :=
  sdiv (sum_over N f) (sof_nat N).

(** [probs.gather(1, actions).view(-1)] for [probs] of shape [N x n] and
    [actions] of shape [N x 1]: the entry of each row that the row's
    action selects. *)
Definition gather1 (probs : list (list A)) (actions : list nat)
    : result (list A) :=
  if bool_decide (length actions <= length probs)%nat then
    sequence_results
      (zip_with (fun row a =>
                   match row !! a with
                   | Some p => Ok p
                   | None => Raise RuntimeError
                   end) probs actions)
  else Raise RuntimeError.

(** [l[start:]] *)
Definition slice_from {X : Type} (l : list X) (start : Z) : list X :=
  if bool_decide (start < 0)%Z
  then drop (Z.to_nat (len l + start)) l
  else drop (Z.to_nat start) l.

End Tensors.

Module PolicyNet.
Section Loss.
Context {A : Type} `{Scalar A} `{TensorOps A}.

(** [[
    def loss(self, action_probabilities, returns):
        return -torch.mean(torch.mul(torch.log(action_probabilities), returns))
    ]] *)
Definition loss (action_probabilities returns : list A) : result A :=
  p ← torch_mul (torch_log action_probabilities) returns;
  Ok (sneg (torch_mean p)).

End Loss.
End PolicyNet.

(** ** The training cell *)

(** The training settings of the notebook. *)
Record settings (A : Type) : Type := {
  num_episodes : Z;
  rollout_limit : Z;
  discount_factor : A;
  val_freq : Z
}.
Global Arguments num_episodes {A} _.
Global Arguments rollout_limit {A} _.
Global Arguments discount_factor {A} _.
Global Arguments val_freq {A} _.

(** The collaborators the loop calls but does not implement: the
    environment, the policy network with its optimizer, and the random
    sampler.  Each acts on the outside world [W] and may raise.
    [env_step] stands for the call with its unpacking
    [s1, r, done, _ = env.step(a)]; [multinomial] for
    [torch.multinomial(a_prob, num_samples=1).squeeze().numpy()];
    [argmax] for [a_prob.argmax().item()]; [backward] for
    [loss.backward()].  An interrupt from the keyboard reaches the cell
    as a [KeyboardInterrupt] raised by the collaborator that is running
    when it arrives. *)
Record collaborators (A W Obs : Type) : Type := {
  env_reset : stateful W Obs;
  env_step : nat -> stateful W (Obs * A * bool);
  policy_forward : list Obs -> stateful W (list (list A));
  multinomial : list (list A) -> stateful W nat;
  argmax : list (list A) -> stateful W nat;
  zero_grad : stateful W unit;
  backward : A -> stateful W unit;
  optimizer_step : stateful W unit
}.
Global Arguments env_reset {A W Obs} _.
Global Arguments env_step {A W Obs} _ _.
Global Arguments policy_forward {A W Obs} _ _.
Global Arguments multinomial {A W Obs} _ _.
Global Arguments argmax {A W Obs} _ _.
Global Arguments zero_grad {A W Obs} _.
Global Arguments backward {A W Obs} _ _.
Global Arguments optimizer_step {A W Obs} _.

(** What the cell prints. *)
Inductive message (A : Type) : Type :=
  | StartTraining
  | Progress (episode : Z) (training validation mean_loss : A)
  | Done
  | Interrupt.
Global Arguments StartTraining {A}.
Global Arguments Progress {A} _ _ _ _.
Global Arguments Done {A}.
Global Arguments Interrupt {A}.

(** The notebook's state: the outside world, the two metric lists and
    the printed output. *)
Record store (A W : Type) : Type := {
  world : W;
  training_rewards : list A;
  losses : list A;
  stdout : list (message A)
}.
Global Arguments world {A W} _.
Global Arguments training_rewards {A W} _.
Global Arguments losses {A W} _.
Global Arguments stdout {A W} _.

Section TrainingCell.
Context {A : Type} `{Scalar A} `{TensorOps A} {W Obs : Type}.
Variable cfg : settings A.
Variable ext : collaborators A W Obs.

(** A call to a collaborator. *)
Definition call {X : Type} (f : stateful W X) : stateful (store A W) X :=
  fun st =>
    let '(r, w) := f (world st) in
    (r, {| world := w; training_rewards := training_rewards st;
           losses := losses st; stdout := stdout st |}).

(** The value of a variable of the notebook. *)
Definition read {X : Type} (f : store A W -> X) : stateful (store A W) X :=
  fun st => (Ok (f st), st).

(** [print(...)] *)
Definition print (m : message A) : stateful (store A W) unit :=
  fun st =>
    (Ok tt, {| world := world st; training_rewards := training_rewards st;
               losses := losses st; stdout := stdout st ++ [m] |}).

(** [training_rewards, losses = [], []] *)
Definition reset_metrics : stateful (store A W) unit :=
  fun st =>
    (Ok tt, {| world := world st; training_rewards := [];
               losses := []; stdout := stdout st |}).

(** [training_rewards.append(x)] *)
Definition append_training_reward (x : A) : stateful (store A W) unit :=
  fun st =>
    (Ok tt, {| world := world st; training_rewards := training_rewards st ++ [x];
               losses := losses st; stdout := stdout st |}).

(** [losses.append(x)] *)
Definition append_loss (x : A) : stateful (store A W) unit :=
  fun st =>
    (Ok tt, {| world := world st; training_rewards := training_rewards st;
               losses := losses st ++ [x]; stdout := stdout st |}).

(** A computation that leaves both metric lists as they are, whether it
    returns or raises. *)
Definition keeps_metrics {X : Type} (m : stateful (store A W) X) : Prop :=
  forall st, training_rewards (m st).2 = training_rewards st /\
             losses (m st).2 = losses st.

(** [[
    for j in range(rollout_limit):
        with torch.no_grad():
            a_prob = policy(torch.from_numpy(np.atleast_2d(s)).float())
            a = torch.multinomial(a_prob, num_samples=1).squeeze().numpy()
        s1, r, done, _ = env.step(a)
        rollout.append((s, a, r))
        s = s1
        if done: break
    ]]
    [js] is what is left of [range(rollout_limit)]. *)
Fixpoint collect_rollout (js : list Z) (s : Obs) (rollout : list (Obs * nat * A))
    : stateful (store A W) (list (Obs * nat * A)) :=
  match js with
  | [] => mret rollout
  | _ :: js' =>
      a_prob ← call (policy_forward ext [s]);
      a ← call (multinomial ext a_prob);
      '(s1, r, done) ← call (env_step ext a);
      let rollout := rollout ++ [(s, a, r)] in
      if (done : bool) then mret rollout
      else collect_rollout js' s1 rollout
  end.

(** One step of the rollout loop without its test of [done]: the next
    state, the triple appended and the flag. *)
Definition rollout_step (s : Obs)
    : stateful (store A W) (Obs * (Obs * nat * A) * bool) :=
  a_prob ← call (policy_forward ext [s]);
  a ← call (multinomial ext a_prob);
  '(s1, r, done) ← call (env_step ext a);
  mret (s1, (s, a, r), done).

(** [n] steps of the policy on the environment, whatever the flags say:
    the triples and the flags, in order. *)
Fixpoint run_steps (n : nat) (s : Obs)
    : stateful (store A W) (list ((Obs * nat * A) * bool)) :=
  match n with
  | O => mret []
  | S n' =>
      '(s1, x, done) ← rollout_step s;
      rest ← run_steps n' s1;
      mret ((x, done) :: rest)
  end.

(** [[
    rollout = np.array(rollout)
    states = np.vstack(rollout[:,0])
    actions = np.vstack(rollout[:,1])
    rewards = np.array(rollout[:,2], dtype=float)
    ]]
    An empty rollout is an array of one dimension, which [rollout[:,0]]
    refuses. *)
Definition prepare_batch (rollout : list (Obs * nat * A))
    : result (list Obs * list nat * list A) :=
  match rollout with
  | [] => Raise IndexError
  | _ => Ok ((fun x => x.1.1) <$> rollout, (fun x => x.1.2) <$> rollout,
             (fun x => x.2) <$> rollout)
  end.

(** The inner loop of the validation: the greedy policy, the rewards
    accumulated in [reward]. *)
Fixpoint validation_rollout (js : list Z) (s : Obs) (reward : A)
    : stateful (store A W) A :=
  match js with
  | [] => mret reward
  | _ :: js' =>
      a_prob ← call (policy_forward ext [s]);
      a ← call (argmax ext a_prob);
      '(s1, r, done) ← call (env_step ext a);
      let reward := (reward + r)%S in
      if (done : bool) then mret reward
      else validation_rollout js' s1 reward
  end.

(** [[
    validation_rewards = []
    for _ in range(10):
        s = env.reset()
        reward = 0
        for _ in range(rollout_limit): ...
        validation_rewards.append(reward)
    print(... i+1, np.mean(training_rewards[-val_freq:]),
          np.mean(validation_rewards), np.mean(losses[-val_freq:]))
    ]] *)
Definition validation (i : Z) : stateful (store A W) unit :=
  validation_rewards ←
    for_in (range 10) []
      (fun validation_rewards _ =>
         s ← call (env_reset ext);
         reward ← validation_rollout (range (rollout_limit cfg)) s szero;
         mret (validation_rewards ++ [reward]));
  training ← read training_rewards;
  recorded ← read losses;
  print (Progress (i + 1)
           (torch_mean (slice_from training (- val_freq cfg)))
           (torch_mean validation_rewards)
           (torch_mean (slice_from recorded (- val_freq cfg)))).

(** The first part of an iteration: the rollout, the batch and the
    policy gradient update.  It yields the rewards and the loss. *)
Definition rollout_and_update : stateful (store A W) (list A * A) :=
  s ← call (env_reset ext);
  rollout ← collect_rollout (range (rollout_limit cfg)) s [];
  '(states, actions, rewards) ← lift (prepare_batch rollout);
  returns ← lift (compute_returns rewards (discount_factor cfg));
  _ ← call (zero_grad ext);
  probs ← call (policy_forward ext states);
  a_probs ← lift (gather1 probs actions);
  loss ← lift (PolicyNet.loss a_probs (sfloat32 <$> returns));
  _ ← call (backward ext loss);
  _ ← call (optimizer_step ext);
  mret (rewards, loss).

(** [[
    training_rewards.append(sum(rewards))
    losses.append(loss.item())
    ]] *)
Definition bookkeeping (rewards : list A) (loss : A) : stateful (store A W) unit :=
  _ ← append_training_reward (py_sum rewards);
  append_loss loss.

(** [if (i+1) % val_freq == 0: ...] *)
Definition report (i : Z) : stateful (store A W) unit :=
  if bool_decide (val_freq cfg = 0)%Z then raise ZeroDivisionError
  else if bool_decide ((i + 1) `mod` val_freq cfg = 0)%Z then validation i
  else mret tt.

(** One iteration of [for i in range(num_episodes)]. *)
Definition train_episode (i : Z) : stateful (store A W) unit :=
  '(rewards, loss) ← rollout_and_update;
  _ ← bookkeeping rewards loss;
  report i.

(** The first [k] iterations of the [try] body. *)
Definition run_episodes (k : Z) : stateful (store A W) unit :=
  _ ← reset_metrics;
  _ ← print StartTraining;
  for_in (range k) tt (fun _ i => train_episode i).

(** The body of the [try]. *)
Definition train_loop : stateful (store A W) unit :=
  _ ← run_episodes (num_episodes cfg);
  print Done.

(** [[
    try:
        training_rewards, losses = [], []
        print('start training')
        for i in range(num_episodes): ...
        print('done')
    except KeyboardInterrupt:
        print('interrupt')
    ]] *)
Definition training_cell : stateful (store A W) unit :=
  try_except_KeyboardInterrupt train_loop (print Interrupt).

End TrainingCell.

(** ** Invariants of the training cell *)

Section TrainingInvariants.
Context {A W Obs : Type}.

(** A computation that prints nothing, whether it returns or raises. *)
Definition keeps_stdout {X : Type} (m : stateful (store A W) X) : Prop :=
  forall st, stdout (m st).2 = stdout st.

(** The episode numbers of the progress lines among what was printed. *)
Definition progress_episodes (out : list (message A)) : list Z :=
  omap (fun m => match m with Progress e _ _ _ => Some e | _ => None end) out.

(** A computation that returns from every state, with a value in [P]. *)
Definition always_returns {St X : Type} (m : stateful St X) (P : X -> Prop)
    : Prop :=
  forall st, exists x st', m st = (Ok x, st') /\ P x.

(** Collaborators that do their part: no call raises, the policy returns
    one row of [n_outputs] probabilities per state, and the actions that
    the sampler and [argmax] return are below [n_outputs]. *)
Record well_behaved (ext : collaborators A W Obs) (n_outputs : nat) : Prop := {
  env_reset_returns : always_returns (env_reset ext) (fun _ => True);
  env_step_returns : forall a : nat,
    (a < n_outputs)%nat -> always_returns (env_step ext a) (fun _ => True);
  policy_forward_returns : forall states : list Obs,
    always_returns (policy_forward ext states)
      (fun probs => length probs = length states /\
                    Forall (fun row => length row = n_outputs) probs);
  multinomial_returns : forall probs : list (list A),
    always_returns (multinomial ext probs) (fun a => (a < n_outputs)%nat);
  argmax_returns : forall probs : list (list A),
    always_returns (argmax ext probs) (fun a => (a < n_outputs)%nat);
  zero_grad_returns : always_returns (zero_grad ext) (fun _ => True);
  backward_returns : forall loss : A,
    always_returns (backward ext loss) (fun _ => True);
  optimizer_step_returns : always_returns (optimizer_step ext) (fun _ => True)
}.

(** A progress line. *)
Definition is_progress (m : message A) : Prop :=
  exists (e : Z) (t v l : A), m = Progress e t v l.

End TrainingInvariants.

Section ValidationEpisodes.
Context {A : Type} `{Scalar A} `{TensorOps A} {W Obs : Type}.
Variable cfg : settings A.
Variable ext : collaborators A W Obs.

(** The ten validation episodes, before the line is printed. *)
Definition validation_episodes : stateful (store A W) (list A) :=
  for_in (range 10) []
    (fun validation_rewards (_ : Z) =>
       s ← call (env_reset ext);
       reward ← validation_rollout ext (range (rollout_limit cfg)) s szero;
       mret (validation_rewards ++ [reward])).

End ValidationEpisodes.

(** ** The moving average of the plots *)

(** What the moving average needs beside [+]: subtraction, true division
    and the conversion of a Python [int] to a scalar. *)
Class WindowOps (A : Type) : Type := {
  ssub : A -> A -> A;
  squot : A -> A -> A;
  sof_int : Z -> A
}.

Global Instance float_window : WindowOps float := {
  ssub := PrimFloat.sub;
  squot := PrimFloat.div;
  sof_int := fun z => SF2Prim (binary_normalize prec emax z 0 false)
}.

Global Instance Qc_window : WindowOps Qc := {
  ssub := Qcminus;
  squot := Qcdiv;
  sof_int := fun z => Q2Qc (inject_Z z)
}.

(** [l[:stop]] *)
Definition slice_to {X : Type} (l : list X) (stop : Z) : list X :=
  if bool_decide (stop < 0)%Z
  then take (Z.to_nat (len l + stop)) l
  else take (Z.to_nat stop) l.

Section MovingAverage.
Context {A : Type} `{Scalar A} `{WindowOps A}.

(** The running sums that follow [acc]. *)
Fixpoint cumsum_from (acc : A) (l : list A) : list A :=
  match l with
  | [] => []
  | x :: rest => (acc + x)%S :: cumsum_from (acc + x)%S rest
  end.

(** [np.cumsum(a, dtype=float)]: [a[0]], [a[0] + a[1]], ... *)
Definition np_cumsum (a : list A) : list A :=
  match a with
  | [] => []
  | x :: rest => x :: cumsum_from x rest
  end.

(** [x - y] on arrays of one dimension: element-wise when the sizes
    agree, an array of one element is broadcast, and any other pair of
    sizes is a [ValueError]. *)
Definition np_subtract (x y : list A) : result (list A) :=
  if bool_decide (length x = length y) then Ok (zip_with ssub x y)
  else match x, y with
       | [a], _ => Ok (ssub a <$> y)
       | _, [b] => Ok ((fun a => ssub a b) <$> x)
       | _, _ => Raise ValueError
       end.

(** [ret[start:] = v]: [v] must have the size of the slice, or one
    element, which is then repeated; otherwise [ValueError]. *)
Definition assign_from (ret : list A) (start : Z) (v : list A)
    : result (list A) :=
  let m := length (slice_from ret start) in
  let kept := take (length ret - m) ret in
  if bool_decide (length v = m) then Ok (kept ++ v)
  else match v with
       | [b] => Ok (kept ++ replicate m b)
       | _ => Raise ValueError
       end.

(** [ret / n] *)
Definition np_divide (ret : list A) (n : Z) : list A :=
  (fun x => squot x (sof_int n)) <$> ret.

(** [[
    def moving_average(a, n=10) :
        ret = np.cumsum(a, dtype=float)
        ret[n:] = ret[n:] - ret[:-n]
        return ret / n
    ]] *)
Definition moving_average (a : list A) (n : Z) : result (list A) :=
  let ret := np_cumsum a in
  d ← np_subtract (slice_from ret n) (slice_to ret (- n));
  ret ← assign_from ret n d;
  Ok (np_divide ret n).

End MovingAverage.

(** ** Concrete data *)

(** The value of a finite binary64 number as an exact rational; infinities
    and NaN have none. *)
Definition float_value (x : float) : option Qc :=
  match Prim2SF x with
  | S754_zero _ => Some 0%Qc
  | S754_finite s m e =>
      Some (Q2Qc (inject_Z (if s then Z.neg m else Z.pos m) * Qpower 2 e))
  | _ => None
  end.

(** A binary64 number that is neither an infinity nor NaN. *)
Definition finite_float (x : float) : bool :=
  match Prim2SF x with
  | S754_zero _ | S754_finite _ _ _ => true
  | _ => false
  end.

(** [x] lies within [tol] of the rational [c]. *)
Definition close_to (tol c : Qc) (x : float) : Prop :=
  exists v : Qc, float_value x = Some v /\ (c - tol <= v)%Qc /\ (v <= c + tol)%Qc.

(** The exact sum of finite binary64 numbers. *)
Definition exact_sum (l : list float) : option Qc :=
  foldr (fun x acc => v ← float_value x; a ← acc; Some (v + a)%Qc) (Some 0%Qc) l.

(** The sum of the rationals of a list. *)
Definition Qc_sum (l : list Qc) : Qc := foldr Qcplus 0%Qc l.



(** Whether, on [N] rewards of 1.0 and without discount, the first return
    of the recurrence is [sum(R)], bit for bit. *)
Definition unit_rewards_exact (N : nat) : bool :=
  match discounted 1%float (replicate N 1%float) with
  | g0 :: _ => Leibniz.eqb g0 (py_sum (replicate N 1%float))
  | [] => false
  end.

(** The reward sequence of the specification's examples. *)
Definition example_rewards : list float :=
  [0; 1; 1; 1; 0; 1; 1; 0; 0; 0]%float.

(** Two program states that hold the example's rewards, at different
    references and among different arrays. *)
Definition example_heap : gmap nat (list float) :=
  {[ 0%nat := example_rewards ]}.

Definition other_heap : gmap nat (list float) :=
  {[ 2%nat := [1%float]; 5%nat := example_rewards ]}.

(** The notebook's settings. *)
Definition notebook_settings : settings float :=
  {| num_episodes := 800; rollout_limit := 500;
     discount_factor := 1%float; val_freq := 100 |}.

(** Symbolic arithmetic: every operation builds the expression it
    denotes, so that an equation between two results is an equation
    between the expressions that were computed. *)
Inductive term : Type :=
  | Var (name : nat)
  | Zero
  | One
  | Add (a b : term)
  | Mul (a b : term)
  | Neg (a : term)
  | Div (a b : term)
  | Log (a : term)
  | OfNat (n : nat)
  | Float32 (a : term).

Global Instance term_scalar : Scalar term := {
  szero := Zero;
  sone := One;
  sadd := Add;
  smul := Mul
}.

Global Instance term_ops : TensorOps term := {
  sneg := Neg;
  sdiv := Div;
  slog := Log;
  sof_nat := OfNat;
  sfloat32 := Float32
}.

(** A small environment and policy to run the training cell on.  The
    world counts the calls of [env.reset] and the steps of the current
    episode.  The pole falls at step [fall_after]; the user interrupts
    the call of [env.reset] number [interrupt_at]; the policy's
    probabilities in state [s] are the unknowns [2s] and [2s+1]; the
    sampler alternates between the two actions. *)
Definition toy_collaborators (fall_after interrupt_at : nat)
    : collaborators term (nat * nat) nat :=
  {| env_reset := fun w =>
       if bool_decide (w.1 = interrupt_at) then (Raise KeyboardInterrupt, w)
       else (Ok O, (S w.1, O));
     env_step := fun a w =>
       (Ok (S w.2, One, bool_decide (S w.2 = fall_after)), (w.1, S w.2));
     policy_forward := fun states w =>
       (Ok ((fun s : nat => [Var (2 * s); Var (2 * s + 1)]) <$> states), w);
     multinomial := fun _ w => (Ok (w.2 `mod` 2)%nat, w);
     argmax := fun _ w => (Ok 1%nat, w);
     zero_grad := fun w => (Ok tt, w);
     backward := fun _ w => (Ok tt, w);
     optimizer_step := fun w => (Ok tt, w) |}.

(** The same without a user at the keyboard: no call ever raises. *)
Definition steady_collaborators (fall_after : nat)
    : collaborators term (nat * nat) nat :=
  {| env_reset := fun w => (Ok O, (S w.1, O));
     env_step := env_step (toy_collaborators fall_after 0);
     policy_forward := policy_forward (toy_collaborators fall_after 0);
     multinomial := multinomial (toy_collaborators fall_after 0);
     argmax := argmax (toy_collaborators fall_after 0);
     zero_grad := zero_grad (toy_collaborators fall_after 0);
     backward := backward (toy_collaborators fall_after 0);
     optimizer_step := optimizer_step (toy_collaborators fall_after 0) |}.

(** The same with an environment of another version, whose [step]
    returns five values where the loop unpacks four. *)
Definition broken_collaborators : collaborators term (nat * nat) nat :=
  {| env_reset := env_reset (toy_collaborators 3 12);
     env_step := fun _ w => (Raise ValueError, w);
     policy_forward := policy_forward (toy_collaborators 3 12);
     multinomial := multinomial (toy_collaborators 3 12);
     argmax := argmax (toy_collaborators 3 12);
     zero_grad := zero_grad (toy_collaborators 3 12);
     backward := backward (toy_collaborators 3 12);
     optimizer_step := optimizer_step (toy_collaborators 3 12) |}.

Definition toy_settings : settings term :=
  {| num_episodes := 5; rollout_limit := 4; discount_factor := One; val_freq := 2 |}.

Definition toy_store : store term (nat * nat) :=
  {| world := (O, O); training_rewards := [Var 7]; losses := []; stdout := [] |}.

(** The rollout of the small environment from its initial state, and the
    state it leaves. *)
Definition toy_rollout : list (nat * nat * term) :=
  [(0, 0, One); (1, 1, One); (2, 0, One)]%nat.

Definition toy_store_after_rollout : store term (nat * nat) :=
  {| world := (0, 3)%nat; training_rewards := [Var 7]; losses := []; stdout := [] |}.

(** Settings that never validate, and settings that allow no step. *)
Definition unvalidated_settings : settings term :=
  {| num_episodes := 5; rollout_limit := 4; discount_factor := One; val_freq := 0 |}.

Definition stepless_settings : settings term :=
  {| num_episodes := 5; rollout_limit := 0; discount_factor := One; val_freq := 2 |}.

(** A policy that cannot be trained: sampling and every call of the
    optimisation raise. *)
Definition frozen_collaborators : collaborators term (nat * nat) nat :=
  {| env_reset := env_reset (toy_collaborators 3 12);
     env_step := env_step (toy_collaborators 3 12);
     policy_forward := policy_forward (toy_collaborators 3 12);
     multinomial := fun _ w => (Raise RuntimeError, w);
     argmax := argmax (toy_collaborators 3 12);
     zero_grad := fun w => (Raise RuntimeError, w);
     backward := fun _ w => (Raise RuntimeError, w);
     optimizer_step := fun w => (Raise RuntimeError, w) |}.

(** The loss of the first update on the small environment. *)
Definition toy_loss : term :=
  Neg (Div (Add (Add (Add Zero
                        (Mul (Log (Var 0))
                           (Float32 (Add One (Mul One (Add One (Mul One One)))))))
                   (Mul (Log (Var 3)) (Float32 (Add One (Mul One One)))))
              (Mul (Log (Var 4)) (Float32 One)))
         (OfNat 3)).

Definition toy_store_after_update : store term (nat * nat) :=
  {| world := (1, 3)%nat; training_rewards := [Var 7]; losses := []; stdout := [] |}.

(** * Properties *)

(** ** Indexing *)

Lemma norm_index_nat (n k : nat) : (k < n)%nat -> norm_index n (Z.of_nat k) = Some k.
Proof.
  intros Hk. unfold norm_index.
  rewrite bool_decide_eq_true_2 by lia. by rewrite Nat2Z.id.
Qed.

Lemma norm_index_last (n : nat) : norm_index (S n) (-1) = Some n.
Proof.
  unfold norm_index.
  rewrite bool_decide_eq_false_2 by lia.
  rewrite bool_decide_eq_true_2 by lia. f_equal. lia.
Qed.

Lemma norm_index_empty (i : Z) : norm_index 0 i = None.
Proof.
  unfold norm_index.
  rewrite !bool_decide_eq_false_2 by lia. done.
Qed.

Lemma getitem_nat {X} (l : list X) (k : nat) (x : X) :
  l !! k = Some x -> getitem l (Z.of_nat k) = Ok x.
Proof.
  intros Hx. unfold getitem.
  rewrite norm_index_nat by (by eapply lookup_lt_Some). by rewrite Hx.
Qed.

Lemma setitem_nat {X} (l : list X) (k : nat) (x : X) :
  (k < length l)%nat -> setitem l (Z.of_nat k) x = Ok (<[k:=x]> l).
Proof. intros Hk. unfold setitem. by rewrite norm_index_nat. Qed.

Section ReturnCalculatorFacts.
Context {A : Type} `{Scalar A}.

Lemma discounted_length (γ : A) (R : list A) : length (discounted γ R) = length R.
Proof.
  induction R as [|r R IH]; [done|]. cbn [discounted].
  destruct (discounted γ R) as [|g G]; cbn [length] in *; lia.
Qed.

Lemma discounted_cons (γ r : A) (R : list A) (g : A) (G : list A) :
  discounted γ R = g :: G ->
  discounted γ (r :: R) = (r + γ * g)%S :: g :: G.
Proof. intros HG. simpl. by rewrite HG. Qed.

Lemma discounted_head (γ : A) (R : list A) :
  R ≠ [] -> exists g G, discounted γ R = g :: G.
Proof.
  intros HR. pose proof (discounted_length γ R) as Hlen.
  destruct (discounted γ R) as [|g G]; [|by eauto].
  destruct R; [done|simpl in Hlen; lia].
Qed.

Lemma returns_step_ok (γ : A) (R : list A) (t : nat) (r g : A) (G : list A) :
  R !! t = Some r ->
  returns_step R γ (replicate (S t) szero ++ g :: G) (Z.of_nat t)
  = Ok (replicate t szero ++ (r + γ * g)%S :: g :: G).
Proof.
  intros Hr. unfold returns_step.
  rewrite (getitem_nat _ _ _ Hr). cbn [mbind result_bind].
  replace (Z.of_nat t + 1)%Z with (Z.of_nat (S t)) by lia.
  rewrite (getitem_nat _ (S t) g).
  2:{ rewrite lookup_app_r by (rewrite length_replicate; lia).
      by rewrite length_replicate, Nat.sub_diag. }
  cbn [mbind result_bind]. rewrite setitem_nat.
  2:{ rewrite length_app, length_replicate. lia. }
  rewrite replicate_S_end, <- app_assoc.
  rewrite insert_app_r_alt by (rewrite length_replicate; lia).
  by rewrite length_replicate, Nat.sub_diag.
Qed.

Lemma returns_loop (γ : A) (R : list A) (k j : nat) :
  (k + j < length R)%nat ->
  for_each (reverse (Z.of_nat <$> seq k j))
    (replicate (k + j) szero ++ discounted γ (drop (k + j) R))
    (returns_step R γ)
  = Ok (replicate k szero ++ discounted γ (drop k R)).
Proof.
  induction j as [|j IH]; intros Hlt.
  { simpl. by rewrite Nat.add_0_r. }
  rewrite seq_S, fmap_app, reverse_app. cbn [fmap list_fmap reverse rev_append app for_each].
  replace (reverse [Z.of_nat (k + j)]) with [Z.of_nat (k + j)] by done.
  cbn [app for_each].
  destruct (lookup_lt_is_Some_2 R (k + j)) as [r Hr]; [lia|].
  destruct (discounted_head γ (drop (k + S j) R)) as (g & G & HG).
  { intros Hnil. apply (f_equal length) in Hnil. rewrite length_drop in Hnil.
    simpl in Hnil. lia. }
  rewrite HG.
  replace (k + S j)%nat with (S (k + j)) in * by lia.
  rewrite (returns_step_ok γ R (k + j) r g G Hr). cbn [mbind result_bind].
  rewrite <- (discounted_cons γ r _ g G HG).
  rewrite <- (drop_S R r (k + j)) by done.
  apply IH. lia.
Qed.

Lemma compute_returns_discounted (γ : A) (R : list A) :
  R ≠ [] -> compute_returns R γ = Ok (discounted γ R).
Proof.
  intros HR. destruct (length R) as [|n] eqn:Hlen.
  { destruct R; done. }
  destruct (lookup_lt_is_Some_2 R n) as [r Hr]; [lia|].
  assert (getitem R (-1) = Ok r) as Hget.
  { unfold getitem. rewrite Hlen, norm_index_last. by rewrite Hr. }
  assert (setitem (np_zeros (len R)) (-1) r = Ok (replicate n szero ++ [r])) as Hset.
  { unfold setitem, np_zeros, len.
    rewrite length_replicate, Hlen, Nat2Z.id, norm_index_last.
    rewrite replicate_S_end, insert_app_r_alt by (rewrite length_replicate; lia).
    by rewrite length_replicate, Nat.sub_diag. }
  assert (discounted γ (drop n R) = [r]) as Hd.
  { rewrite (drop_S R r n Hr), drop_ge by lia. done. }
  pose proof (returns_loop γ R 0 n) as Hloop. simpl in Hloop.
  rewrite Hd in Hloop.
  unfold compute_returns. rewrite Hget. cbn [mbind result_bind].
  rewrite Hset. cbn [mbind result_bind].
  unfold range, len. rewrite Hlen.
  replace (Z.to_nat (Z.of_nat (S n) - 1)) with n by lia.
  rewrite Hloop by lia. done.
Qed.

Lemma compute_returns_nil (γ : A) : compute_returns [] γ = Raise IndexError.
Proof. reflexivity. Qed.

End ReturnCalculatorFacts.

(** ** The backward recurrence *)

Section ReturnRecurrence.
Context {A : Type} `{Scalar A}.

Lemma discounted_lookup (γ : A) (R : list A) (t : nat) :
  (S t < length R)%nat ->
  exists r g, R !! t = Some r /\ discounted γ R !! S t = Some g /\
              discounted γ R !! t = Some (r + γ * g)%S.
Proof.
  revert t. induction R as [|r R IH]; intros t Ht; [simpl in Ht; lia|].
  destruct (discounted_head γ R) as (g & G & HG).
  { intros ->. simpl in Ht. lia. }
  rewrite (discounted_cons γ r R g G HG).
  destruct t as [|t].
  - exists r, g. done.
  - cbn [length] in Ht.
    destruct (IH t) as (r' & g' & Hr' & Hg' & Hrec); [lia|].
    rewrite HG in Hg', Hrec. exists r', g'. done.
Qed.

Lemma discounted_last (γ : A) (R : list A) :
  discounted γ R !! (length R - 1)%nat = R !! (length R - 1)%nat.
Proof.
  induction R as [|r R IH]; [done|].
  destruct R as [|r' R]; [done|].
  destruct (discounted_head γ (r' :: R)) as (g & G & HG); [done|].
  rewrite (discounted_cons γ r _ g G HG), <- HG.
  replace (length (r :: r' :: R) - 1)%nat with (S (length (r' :: R) - 1)).
  2:{ cbn [length]. lia. }
  exact IH.
Qed.

Lemma getitem_last {X : Type} (l : list X) :
  l ≠ [] -> getitem l (-1) = from_option Ok (Raise IndexError) (l !! (length l - 1)%nat).
Proof.
  intros Hl. destruct (length l) as [|n] eqn:Hlen; [by destruct l|].
  unfold getitem. rewrite Hlen, norm_index_last.
  replace (S n - 1)%nat with n by lia. by destruct (l !! n).
Qed.

(** C1.  For a reward sequence [R] of length [N >= 1] and any discount
    factor [γ] (in particular any [γ] in [[0, 1]]), [compute_returns]
    returns a sequence [G] of the same length with [G[N-1] = R[N-1]] and
    [G[t] = R[t] + γ * G[t+1]] for every [t < N-1], in whatever arithmetic
    the elements have. *)
Theorem compute_returns_recurrence (R : list A) (γ : A) :
  (1 <= length R)%nat ->
  exists G : list A,
    compute_returns R γ = Ok G /\
    length G = length R /\
    G !! (length R - 1)%nat = R !! (length R - 1)%nat /\
    getitem G (-1) = getitem R (-1) /\
    forall t : nat, (t < length R - 1)%nat ->
      exists r g : A,
        R !! t = Some r /\ G !! S t = Some g /\ G !! t = Some (r + γ * g)%S.
Proof.
  intros HN. assert (R ≠ []) as HR by (intros ->; simpl in HN; lia).
  exists (discounted γ R).
  split; [by apply compute_returns_discounted|].
  split; [apply discounted_length|].
  split; [apply discounted_last|].
  split.
  - rewrite !getitem_last, discounted_length, discounted_last; [done..|].
    intros Hnil. apply (f_equal length) in Hnil.
    rewrite discounted_length in Hnil. simpl in Hnil. lia.
  - intros t Ht. apply discounted_lookup. lia.
Qed.

(** C10.  On the empty reward sequence [rewards[-1]] raises [IndexError],
    so [compute_returns] raises it at [returns[-1] = rewards[-1]] and
    returns no value, the empty sequence included. *)
Theorem compute_returns_empty (γ : A) :
  getitem ([] : list A) (-1) = Raise IndexError /\
  compute_returns [] γ = Raise IndexError /\
  forall G : list A, compute_returns [] γ ≠ Ok G.
Proof. repeat split. intros G HG. discriminate HG. Qed.

End ReturnRecurrence.

(** The theorem on the specification's example, in binary64. *)
Lemma compute_returns_recurrence_witness :
  exists G : list float,
    compute_returns example_rewards 0.9%float = Ok G /\
    length G = 10%nat /\
    G !! 9%nat = Some 0%float /\
    getitem G (-1) = Ok 0%float /\
    forall t : nat, (t < 9)%nat ->
      exists r g : float,
        example_rewards !! t = Some r /\ G !! S t = Some g /\
        G !! t = Some (r + 0.9 * g)%float.
Proof.
  assert (1 <= length example_rewards)%nat as HN by (vm_compute; lia).
  exact (compute_returns_recurrence example_rewards 0.9%float HN).
Defined.

(** ** binary64 facts *)

Lemma shr_52 (m : positive) :
  SpecFloat.iter_pos shr_1 52%positive
    {| shr_m := Z.pos (4503599627370496 * m); shr_r := false; shr_s := false |}
  = {| shr_m := Z.pos m; shr_r := false; shr_s := false |}.
Proof. reflexivity. Qed.

Lemma digits_52 (m : positive) :
  Z.pos (digits2_pos (4503599627370496 * m)) = (Z.pos (digits2_pos m) + 52)%Z.
Proof.
  change (4503599627370496 * m)%positive with
    (Pos.iter xO m 52%positive).
  cbn [Pos.iter digits2_pos]. rewrite !Pos2Z.inj_succ. lia.
Qed.

Lemma SF64mul_1_l (x : spec_float) :
  valid_binary x = true ->
  SF64mul (S754_finite false 4503599627370496 (-52)) x = x.
Proof.
  destruct x as [s|s| |s m e]; try reflexivity.
  intros Hvalid. cbn [SpecFloat.valid_binary] in Hvalid.
  unfold bounded, canonical_mantissa in Hvalid.
  apply andb_prop in Hvalid as [Hcanon Hle].
  apply Z.eqb_eq in Hcanon.
  unfold SF64mul, SFmul. cbn [xorb].
  unfold binary_round_aux.
  assert (shr_fexp prec emax (Z.pos (4503599627370496 * m)) (-52 + e) loc_Exact
          = ({| shr_m := Z.pos m; shr_r := false; shr_s := false |}, e)) as ->.
  { unfold shr_fexp. cbn [Zdigits2 shr_record_of_loc].
    rewrite digits_52.
    replace (Z.pos (digits2_pos m) + 52 + (-52 + e))%Z
      with (Z.pos (digits2_pos m) + e)%Z by lia.
    rewrite Hcanon.
    replace (e - (-52 + e))%Z with 52%Z by lia.
    unfold shr. rewrite shr_52. f_equal. lia. }
  cbn [shr_m loc_of_shr_record round_nearest_even].
  assert (shr_fexp prec emax (Z.pos m) e loc_Exact
          = ({| shr_m := Z.pos m; shr_r := false; shr_s := false |}, e)) as ->.
  { unfold shr_fexp. cbn [Zdigits2 shr_record_of_loc].
    rewrite Hcanon, Z.sub_diag. reflexivity. }
  cbn [shr_m]. by rewrite Hle.
Qed.

Lemma float_mul_1_l (x : float) : (1 * x)%float = x.
Proof.
  apply Prim2SF_inj. rewrite mul_spec.
  change (Prim2SF 1) with (S754_finite false 4503599627370496 (-52)).
  apply SF64mul_1_l, Prim2SF_valid.
Qed.

(** IEEE equality, Python's [==] on floats. *)
Lemma SFcompare_finite_refl (s : bool) (m : positive) (e : Z) :
  SFcompare (S754_finite s m e) (S754_finite s m e) = Some Eq.
Proof.
  unfold SFcompare. rewrite Z.compare_refl, Pos.compare_cont_refl.
  by destruct s.
Qed.

Lemma float_eqb_refl (x : float) : finite_float x = true -> (x =? x)%float = true.
Proof.
  unfold finite_float. rewrite FloatAxioms.eqb_spec. unfold SFeqb.
  destruct (Prim2SF x) as [s|s| |s m e]; try done.
  by rewrite SFcompare_finite_refl.
Qed.

Lemma float_mul_0_finite (g : float) :
  finite_float g = true -> exists s : bool, Prim2SF (0 * g)%float = S754_zero s.
Proof.
  unfold finite_float. rewrite mul_spec.
  change (Prim2SF 0) with (S754_zero false).
  destruct (Prim2SF g) as [s|s| |s m e]; try done; by eexists.
Qed.

Lemma float_add_signed_zero (r z : float) (s : bool) :
  finite_float r = true -> Prim2SF z = S754_zero s ->
  (r + z =? r)%float = true /\ finite_float (r + z)%float = true.
Proof.
  unfold finite_float. rewrite FloatAxioms.eqb_spec, add_spec. intros Hr ->.
  unfold SFeqb.
  destruct (Prim2SF r) as [s'|s'| |s' m e]; try done.
  - by destruct s', s.
  - cbn [SF64add SFadd]. by rewrite SFcompare_finite_refl.
Qed.

Lemma discounted_zero_finite (R : list float) :
  Forall (fun r => finite_float r = true) R ->
  Forall2 (fun g r => (g =? r)%float = true) (discounted 0%float R) R /\
  Forall (fun g => finite_float g = true) (discounted 0%float R).
Proof.
  induction 1 as [|r R Hr HR [IH1 IH2]]; [by split|].
  cbn [discounted].
  destruct (discounted 0%float R) as [|g G] eqn:HG.
  - apply Forall2_nil_inv_l in IH1 as ->.
    split; repeat constructor; auto using float_eqb_refl.
  - assert (finite_float g = true) as Hg by (by inversion IH2).
    destruct (float_mul_0_finite g Hg) as [s Hs].
    destruct (float_add_signed_zero r _ s Hr Hs) as [Heq Hfin].
    split; constructor; done.
Qed.

(** ** The examples of the specification *)

(** C8.  On [R = [0, 1, 1, 1, 0, 1, 1, 0, 0, 0]] with [γ = 1.0],
    [compute_returns] yields exactly [[5, 5, 4, 3, 2, 2, 1, 0, 0, 0]] in
    binary64, and its first element is the total reward 5: both
    [sum(R)] and the exact sum of the rewards. *)
Theorem compute_returns_example_undiscounted :
  compute_returns example_rewards 1%float
    = Ok [5; 5; 4; 3; 2; 2; 1; 0; 0; 0]%float /\
  py_sum example_rewards = 5%float /\
  this <$> exact_sum example_rewards = Some (5 # 1)%Q.
Proof. repeat split; vm_compute; reflexivity. Qed.

(** C2, amended.  On the same [R] with [γ = 0.9], [compute_returns]
    yields [G[8] = 0], [G[7] = 0], [G[6] = 1], [G[5] = 1.9] and
    [G[0] = 3.560931] (the binary64 number nearest to it, within [1e-12]
    of the rational 3.560931), which is 3.56 to two decimal places. *)
Theorem compute_returns_example_discounted :
  exists (G : list float) (g0 : float),
    compute_returns example_rewards 0.9%float = Ok G /\
    G !! 8%nat = Some 0%float /\
    G !! 7%nat = Some 0%float /\
    G !! 6%nat = Some 1%float /\
    G !! 5%nat = Some 1.9%float /\
    G !! 0%nat = Some g0 /\
    g0 = 3.560931%float /\
    close_to (Q2Qc (1 # 1000000000000)) (Q2Qc (3560931 # 1000000)) g0 /\
    close_to (Q2Qc (1 # 200)) (Q2Qc (356 # 100)) g0.
Proof.
  eexists _, _. split; [vm_compute; reflexivity|].
  repeat (split; [reflexivity|]).
  split; (eexists; split; [vm_compute; reflexivity|]);
    split; vm_compute; discriminate.
Qed.

(** The first element is not 3.10, not even to one decimal place: no
    output of [compute_returns] on this input has [G[0]] within 0.05 of
    3.10. *)
Lemma compute_returns_example_discounted_not_3_10 :
  ~ exists (G : list float) (g0 : float),
      compute_returns example_rewards 0.9%float = Ok G /\
      G !! 8%nat = Some 0%float /\
      G !! 7%nat = Some 0%float /\
      G !! 6%nat = Some 1%float /\
      G !! 5%nat = Some 1.9%float /\
      G !! 0%nat = Some g0 /\
      close_to (Q2Qc (5 # 100)) (Q2Qc (310 # 100)) g0.
Proof.
  intros (G & g0 & HG & _ & _ & _ & _ & Hg0 & v & Hv & _ & Hhi).
  vm_compute in HG. injection HG as <-.
  injection Hg0 as <-.
  vm_compute in Hv. injection Hv as <-.
  vm_compute in Hhi. by apply Hhi.
Qed.

(** ** No discount: [γ = 1] *)

Section Undiscounted.
Context {A : Type} `{Scalar A}.

Lemma discounted_one_head (R : list A) :
  (forall x : A, (sone * x)%S = x) -> R ≠ [] ->
  head (discounted sone R) = Some (sum_from_last R).
Proof.
  intros Hone. induction R as [|r R IH]; [done|]. intros _.
  destruct R as [|r' R]; [done|].
  destruct (discounted_head sone (r' :: R)) as (g & G & HG); [done|].
  rewrite (discounted_cons sone r _ g G HG).
  rewrite HG in IH. injection (IH ltac:(done)) as ->.
  cbn [head]. rewrite Hone. done.
Qed.

Lemma foldl_sadd_assoc (a : A) (l : list A) :
  (forall x y z : A, (x + (y + z))%S = ((x + y) + z)%S) ->
  l ≠ [] -> foldl sadd a l = (a + sum_from_last l)%S.
Proof.
  intros Hassoc. revert a. induction l as [|r l IH]; [done|]. intros a _.
  destruct l as [|r' l]; [done|].
  cbn [foldl] in *. rewrite (IH (a + r)%S) by done.
  change (sum_from_last (r :: r' :: l)) with (r + sum_from_last (r' :: l))%S.
  by rewrite Hassoc.
Qed.

Lemma sum_from_last_py_sum (R : list A) :
  (forall x y z : A, (x + (y + z))%S = ((x + y) + z)%S) ->
  (forall x : A, (szero + x)%S = x) ->
  sum_from_last R = py_sum R.
Proof.
  intros Hassoc Hzero. destruct R as [|r R]; [done|].
  unfold py_sum. by rewrite foldl_sadd_assoc, Hzero.
Qed.

(** C6, amended.  In an arithmetic where [1 * x = x], as in binary64,
    [compute_returns(R, 1)] on a non-empty [R] yields [G[0]] equal to the
    sum of the elements of [R] accumulated from the last to the first,
    [R[0] + (R[1] + (... + R[N-1]))]; where moreover addition is
    associative and [0 + x = x], as in exact arithmetic, that is
    [sum(R)]. *)
Theorem compute_returns_undiscounted (R : list A) :
  (forall x : A, (sone * x)%S = x) ->
  R ≠ [] ->
  exists (G : list A) (g0 : A),
    compute_returns R sone = Ok G /\
    G !! 0%nat = Some g0 /\
    g0 = sum_from_last R /\
    ((forall x y z : A, (x + (y + z))%S = ((x + y) + z)%S) ->
     (forall x : A, (szero + x)%S = x) ->
     g0 = py_sum R).
Proof.
  intros Hone HR.
  exists (discounted sone R), (sum_from_last R).
  split; [by apply compute_returns_discounted|].
  split; [rewrite <- head_lookup; by apply discounted_one_head|].
  split; [done|]. apply sum_from_last_py_sum.
Qed.

End Undiscounted.

(** The theorem at binary64, on a sequence whose sum rounds. *)
Lemma compute_returns_undiscounted_witness :
  exists (G : list float) (g0 : float),
    compute_returns [1; 1e16; 1; 1]%float 1%float = Ok G /\
    G !! 0%nat = Some g0 /\
    g0 = (1 + (1e16 + (1 + 1)))%float /\
    ((forall x y z : float, (x + (y + z))%float = ((x + y) + z)%float) ->
     (forall x : float, (0 + x)%float = x) ->
     g0 = py_sum [1; 1e16; 1; 1]%float).
Proof.
  assert ([1; 1e16; 1; 1]%float ≠ []) as HR by discriminate.
  exact (compute_returns_undiscounted [1; 1e16; 1; 1]%float float_mul_1_l HR).
Defined.

(** In binary64 the sum accumulated from the last element differs from
    [sum(R)] and from the exact sum: on [R = [1, 1e16, 1, 1]],
    [G[0] = 10000000000000004], [sum(R) = 1e16] and the exact sum is
    [10000000000000003]. *)
Lemma compute_returns_undiscounted_rounding :
  exists (G : list float) (g0 : float) (v total : Qc),
    compute_returns [1; 1e16; 1; 1]%float 1%float = Ok G /\
    G !! 0%nat = Some g0 /\
    (g0 =? py_sum [1; 1e16; 1; 1]%float)%float = false /\
    float_value g0 = Some v /\
    exact_sum [1; 1e16; 1; 1]%float = Some total /\
    v ≠ total.
Proof.
  eexists _, _, _, _.
  split; [vm_compute; reflexivity|].
  split; [reflexivity|].
  split; [vm_compute; reflexivity|].
  split; [vm_compute; reflexivity|].
  split; [vm_compute; reflexivity|].
  intros Heq. apply (f_equal this) in Heq. vm_compute in Heq. discriminate Heq.
Qed.

(** ** Full discount: [γ = 0] *)

(** C7, amended.  For a non-empty sequence [R] of finite binary64
    rewards, [compute_returns(R, 0.0)] yields [G] of the same length with
    [G[t] == R[t]] for every [t], where [==] is the equality of IEEE 754
    (a reward [-0.0] can come back as [0.0]). *)
Theorem compute_returns_full_discount (R : list float) :
  R ≠ [] ->
  Forall (fun r => finite_float r = true) R ->
  exists G : list float,
    compute_returns R 0%float = Ok G /\
    Forall2 (fun g r => (g =? r)%float = true) G R.
Proof.
  intros HR Hfin. exists (discounted 0%float R).
  split; [by apply compute_returns_discounted|].
  by apply discounted_zero_finite.
Qed.

(** The theorem on a sequence with a negative zero. *)
Lemma compute_returns_full_discount_witness :
  exists G : list float,
    compute_returns [-0; 2.5; -3]%float 0%float = Ok G /\
    Forall2 (fun g r => (g =? r)%float = true) G [-0; 2.5; -3]%float.
Proof.
  apply compute_returns_full_discount.
  - discriminate.
  - repeat constructor.
Defined.

(** An infinite reward breaks the equality, since [0.0 * inf] is NaN:
    on [R = [1, inf]] the result is [[nan, inf]]. *)
Lemma compute_returns_full_discount_infinity :
  exists G : list float,
    compute_returns [1; infinity]%float 0%float = Ok G /\
    G = [nan; infinity]%float /\
    G ≠ [1; infinity]%float /\
    ~ Forall2 (fun g r => (g =? r)%float = true) G [1; infinity]%float.
Proof.
  eexists. split; [vm_compute; reflexivity|].
  split; [reflexivity|].
  split.
  - intros Heq. apply (f_equal (fun l => Prim2SF <$> head l)) in Heq.
    vm_compute in Heq. discriminate Heq.
  - intros Hall. inversion Hall as [|? ? ? ? Hhd _]; subst.
    vm_compute in Hhd. discriminate Hhd.
Qed.

(** ** Exact arithmetic and the notebook's rewards *)

Section ExactArithmetic.
Context {A : Type} `{Scalar A}.

Lemma discounted_zero_exact (R : list A) :
  (forall x : A, (szero * x)%S = szero) ->
  (forall x : A, (x + szero)%S = x) ->
  discounted szero R = R.
Proof.
  intros Hmul Hadd. induction R as [|r R IH]; [done|].
  cbn [discounted]. rewrite IH. destruct R as [|g G]; [done|].
  by rewrite Hmul, Hadd.
Qed.

End ExactArithmetic.

(** In exact rational arithmetic the first return is [sum(R)] when
    nothing is discounted. *)
Lemma exact_returns_undiscounted (R : list Qc) :
  R ≠ [] ->
  exists (G : list Qc) (g0 : Qc),
    compute_returns R 1%Qc = Ok G /\ G !! 0%nat = Some g0 /\ g0 = py_sum R.
Proof.
  intros HR. change 1%Qc with (sone (A:=Qc)).
  exists (discounted sone R), (sum_from_last R).
  split; [by apply compute_returns_discounted|].
  split.
  - rewrite <- head_lookup.
    apply (discounted_one_head (A:=Qc)); [apply Qcmult_1_l|done].
  - apply (sum_from_last_py_sum (A:=Qc)); [apply Qcplus_assoc|apply Qcplus_0_l].
Qed.

(** In exact rational arithmetic the returns are the rewards when
    everything is discounted. *)
Lemma exact_returns_full_discount (R : list Qc) :
  R ≠ [] -> compute_returns R 0%Qc = Ok R.
Proof.
  intros HR. change 0%Qc with (szero (A:=Qc)).
  rewrite compute_returns_discounted by done. f_equal.
  apply (discounted_zero_exact (A:=Qc)); [apply Qcmult_0_l|apply Qcplus_0_r].
Qed.

(** The rewards of CartPole are 1.0 at every step, and under the
    notebook's settings a rollout has at most 500 of them and nothing is
    discounted: on these, binary64 is exact and the first return is
    [sum(R)]. *)
Lemma cartpole_returns_undiscounted (N : nat) :
  (1 <= Z.of_nat N <= rollout_limit notebook_settings)%Z ->
  exists G : list float,
    compute_returns (replicate N 1%float) (discount_factor notebook_settings) = Ok G /\
    G !! 0%nat = Some (py_sum (replicate N 1%float)).
Proof.
  cbn [rollout_limit discount_factor notebook_settings]. intros HN.
  assert (forallb unit_rewards_exact (seq 1 500) = true) as Hall
    by (vm_compute; reflexivity).
  rewrite forallb_forall in Hall.
  specialize (Hall N ltac:(apply in_seq; lia)). unfold unit_rewards_exact in Hall.
  exists (discounted 1%float (replicate N 1%float)). split.
  - apply compute_returns_discounted. destruct N; [lia|done].
  - destruct (discounted 1%float (replicate N 1%float)) as [|g0 G]; [done|].
    cbn. f_equal. by apply Leibniz.eqb_spec.
Qed.

(** ** Stateful computations *)

Lemma stateful_bind_unfold {St X Y : Type} (m : stateful St X)
    (f : X -> stateful St Y) (st : St) :
  (m ≫= f) st =
    match m st with
    | (Ok x, st') => f x st'
    | (Raise e, st') => (Raise e, st')
    end.
Proof. reflexivity. Qed.

Lemma stateful_bind_ok {St X Y : Type} (m : stateful St X)
    (f : X -> stateful St Y) (st st' : St) (x : X) :
  m st = (Ok x, st') -> (m ≫= f) st = f x st'.
Proof. intros Hm. by rewrite stateful_bind_unfold, Hm. Qed.

Lemma stateful_bind_raise {St X Y : Type} (m : stateful St X)
    (f : X -> stateful St Y) (st st' : St) (e : exn) :
  m st = (Raise e, st') -> (m ≫= f) st = (Raise e, st').
Proof. intros Hm. by rewrite stateful_bind_unfold, Hm. Qed.

(** ** Arrays with identity *)

Section HeapFacts.
Context {A : Type} `{Scalar A}.
Implicit Types (h : gmap nat (list A)) (R v : list A) (γ : A).

Lemma heap_read_lookup h (l : nat) v : h !! l = Some v -> heap_read h l = v.
Proof. unfold heap_read. by intros ->. Qed.

Lemma fresh_dom_lookup h : h !! fresh (dom h) = None.
Proof. apply not_elem_of_dom, is_fresh. Qed.

Lemma heap_len_eq h (l : nat) v :
  h !! l = Some v -> heap_len l h = (Ok (len v), h).
Proof. intros Hl. unfold heap_len. by rewrite (heap_read_lookup h l v Hl). Qed.

Lemma heap_getitem_eq h (l : nat) v (i : Z) :
  h !! l = Some v -> heap_getitem l i h = (getitem v i, h).
Proof. intros Hl. unfold heap_getitem. by rewrite (heap_read_lookup h l v Hl). Qed.

Lemma heap_setitem_eq h (l : nat) v v' (i : Z) (x : A) :
  h !! l = Some v -> setitem v i x = Ok v' ->
  heap_setitem l i x h = (Ok tt, <[l:=v']> h).
Proof.
  intros Hl Hset. unfold heap_setitem.
  by rewrite (heap_read_lookup h l v Hl), Hset.
Qed.

Lemma heap_returns_step_ok h (rewards returns : nat) R v v' γ (t : Z) :
  rewards ≠ returns ->
  h !! rewards = Some R ->
  h !! returns = Some v ->
  returns_step R γ v t = Ok v' ->
  heap_returns_step rewards γ returns t h = (Ok returns, <[returns:=v']> h).
Proof.
  intros Hne HR Hv Hstep.
  unfold heap_returns_step, returns_step in *.
  destruct (getitem R t) as [r|e] eqn:Hr; [|done].
  destruct (getitem v (t + 1)) as [g|e] eqn:Hg; [|done].
  cbn [mbind result_bind] in Hstep.
  rewrite (stateful_bind_ok _ _ h h r) by (by rewrite (heap_getitem_eq h _ R), Hr).
  rewrite (stateful_bind_ok _ _ h h g) by (by rewrite (heap_getitem_eq h _ v), Hg).
  rewrite (stateful_bind_ok _ _ h (<[returns:=v']> h) tt)
    by (by apply (heap_setitem_eq h _ v)).
  done.
Qed.

Lemma heap_returns_loop (ts : list Z) h (rewards returns : nat) R v v' γ :
  rewards ≠ returns ->
  h !! rewards = Some R ->
  h !! returns = Some v ->
  for_each ts v (returns_step R γ) = Ok v' ->
  for_in ts returns (heap_returns_step rewards γ) h
  = (Ok returns, <[returns:=v']> h).
Proof.
  intros Hne. revert h v.
  induction ts as [|t ts IH]; intros h v HR Hv Hloop.
  - injection Hloop as <-. cbn. by rewrite insert_id.
  - cbn [for_each] in Hloop.
    destruct (returns_step R γ v t) as [v1|e] eqn:Hstep; [|done].
    cbn [mbind result_bind] in Hloop.
    cbn [for_in]. rewrite stateful_bind_unfold.
    rewrite (heap_returns_step_ok h rewards returns R v v1 γ t Hne HR Hv Hstep).
    rewrite (IH (<[returns:=v1]> h) v1); [| |apply lookup_insert_eq|done].
    + by rewrite insert_insert_eq.
    + by rewrite lookup_insert_ne.
Qed.

(** The function on the heap computes what the function on sequences
    does, into a new array, and touches nothing else. *)
Lemma heap_compute_returns_spec h (rewards : nat) R γ :
  h !! rewards = Some R ->
  heap_compute_returns rewards γ h =
    match compute_returns R γ with
    | Ok G => (Ok (fresh (dom h)), <[fresh (dom h):=G]> h)
    | Raise e => (Raise e, <[fresh (dom h):=[]]> h)
    end.
Proof.
  intros HR. pose proof (fresh_dom_lookup h) as Hfresh.
  set (l := fresh (dom h)) in *.
  assert (rewards ≠ l) as Hne by (intros ->; congruence).
  set (h1 := <[l:=np_zeros (len R)]> h).
  assert (h1 !! rewards = Some R) as HR1 by (unfold h1; by rewrite lookup_insert_ne).
  assert (h1 !! l = Some (np_zeros (len R))) as Hl1 by apply lookup_insert_eq.
  unfold heap_compute_returns.
  rewrite (stateful_bind_ok _ _ h h (len R)) by (by apply heap_len_eq).
  rewrite (stateful_bind_ok _ _ h h1 l) by done.
  destruct R as [|r0 R0].
  { rewrite (stateful_bind_raise _ _ h1 h1 IndexError)
      by (by rewrite (heap_getitem_eq h1 _ [])).
    done. }
  set (R := r0 :: R0) in *.
  assert (R ≠ []) as HRne by done.
  pose proof (compute_returns_discounted γ R HRne) as Hok.
  rewrite Hok. unfold compute_returns in Hok.
  destruct (getitem R (-1)) as [r|e] eqn:Hget; [|done].
  cbn [mbind result_bind] in Hok.
  destruct (setitem (np_zeros (len R)) (-1) r) as [v|e] eqn:Hset; [|done].
  cbn [mbind result_bind] in Hok.
  destruct (for_each (reverse (range (len R - 1))) v (returns_step R γ))
    as [v'|e] eqn:Hloop; [|done].
  injection Hok as ->.
  rewrite (stateful_bind_ok _ _ h1 h1 r)
    by (by rewrite (heap_getitem_eq h1 _ R), Hget).
  set (h2 := <[l:=v]> h1).
  rewrite (stateful_bind_ok _ _ h1 h2 tt)
    by (by apply (heap_setitem_eq h1 _ (np_zeros (len R)))).
  assert (h2 !! rewards = Some R) as HR2 by (unfold h2; by rewrite lookup_insert_ne).
  rewrite (stateful_bind_ok _ _ h2 h2 (len R)) by (by apply heap_len_eq).
  rewrite (heap_returns_loop _ h2 rewards l R v (discounted γ R) γ Hne HR2);
    [|apply lookup_insert_eq|done].
  unfold h2, h1. by rewrite !insert_insert_eq.
Qed.

(** C9.  [compute_returns] is deterministic and keeps no hidden state:
    called on equal reward sequences, in any two program states and
    through any two references, it hands back equal outputs, namely what
    the recurrence gives for the rewards and the discount factor alone;
    it changes no array that existed before the call, the rewards
    included; and a second call, run in the state the first one left,
    returns the same contents in an array of its own, leaving the first
    output as it was. *)
Theorem compute_returns_deterministic h h' (rewards rewards' : nat) R γ :
  h !! rewards = Some R ->
  h' !! rewards' = Some R ->
  outcome (heap_compute_returns rewards γ h)
    = outcome (heap_compute_returns rewards' γ h') /\
  outcome (heap_compute_returns rewards γ h) = compute_returns R γ /\
  (forall (l : nat) v, h !! l = Some v ->
     (heap_compute_returns rewards γ h).2 !! l = Some v) /\
  forall r1 h1 r2 h2,
    heap_compute_returns rewards γ h = (r1, h1) ->
    heap_compute_returns rewards γ h1 = (r2, h2) ->
    outcome (r1, h1) = outcome (r2, h2) /\
    forall l1 l2 : nat, r1 = Ok l1 -> r2 = Ok l2 ->
      l1 ≠ l2 /\ h2 !! l1 = h2 !! l2 /\ h2 !! l1 = h1 !! l1.
Proof.
  intros HR HR'.
  assert (forall k (rw : nat), k !! rw = Some R ->
            outcome (heap_compute_returns rw γ k) = compute_returns R γ) as Hout.
  { intros k rw Hk. rewrite (heap_compute_returns_spec k rw R γ Hk).
    destruct (compute_returns R γ) as [G|e]; [|done].
    unfold outcome. cbn [fst snd mbind result_bind].
    by rewrite (heap_read_lookup _ _ G) by apply lookup_insert_eq. }
  assert (forall k (rw : nat), k !! rw = Some R ->
            forall (l : nat) v, k !! l = Some v ->
              (heap_compute_returns rw γ k).2 !! l = Some v) as Hframe.
  { intros k rw Hk l v Hl. rewrite (heap_compute_returns_spec k rw R γ Hk).
    assert (l ≠ fresh (dom k)) as Hne.
    { intros ->. rewrite fresh_dom_lookup in Hl. done. }
    destruct (compute_returns R γ); cbn [snd]; by rewrite lookup_insert_ne. }
  split; [by rewrite !Hout|]. split; [by apply Hout|]. split; [by apply Hframe|].
  intros r1 h1 r2 h2 H1 H2.
  assert (h1 !! rewards = Some R) as HR1.
  { pose proof (Hframe h rewards HR rewards R HR) as Hf. by rewrite H1 in Hf. }
  split.
  { rewrite <- H1, <- H2. by rewrite !Hout. }
  intros l1 l2 -> ->.
  rewrite (heap_compute_returns_spec h rewards R γ HR) in H1.
  rewrite (heap_compute_returns_spec h1 rewards R γ HR1) in H2.
  destruct (compute_returns R γ) as [G|e]; [|done].
  injection H1 as <- <-. injection H2 as <- <-.
  set (l1 := fresh (dom h)).
  set (l2 := fresh (dom (<[l1:=G]> h))).
  assert (l1 ≠ l2) as Hne.
  { intros Heq. pose proof (fresh_dom_lookup (<[l1:=G]> h)) as Hfr.
    fold l2 in Hfr. rewrite <- Heq, lookup_insert_eq in Hfr. done. }
  split; [done|].
  rewrite lookup_insert_ne by done. by rewrite !lookup_insert_eq.
Qed.

End HeapFacts.

(** The theorem on the example's rewards, held in two different states. *)
Lemma compute_returns_deterministic_witness :
  outcome (heap_compute_returns 0%nat 0.9%float example_heap)
    = outcome (heap_compute_returns 5%nat 0.9%float other_heap) /\
  outcome (heap_compute_returns 0%nat 0.9%float example_heap)
    = compute_returns example_rewards 0.9%float /\
  (forall (l : nat) v, example_heap !! l = Some v ->
     (heap_compute_returns 0%nat 0.9%float example_heap).2 !! l = Some v) /\
  forall r1 h1 r2 h2,
    heap_compute_returns 0%nat 0.9%float example_heap = (r1, h1) ->
    heap_compute_returns 0%nat 0.9%float h1 = (r2, h2) ->
    outcome (r1, h1) = outcome (r2, h2) /\
    forall l1 l2 : nat, r1 = Ok l1 -> r2 = Ok l2 ->
      l1 ≠ l2 /\ h2 !! l1 = h2 !! l2 /\ h2 !! l1 = h1 !! l1.
Proof.
  apply (compute_returns_deterministic example_heap other_heap 0%nat 5%nat
           example_rewards 0.9%float).
  - reflexivity.
  - reflexivity.
Defined.

(** ** The loss *)

Lemma sequence_results_Ok {X : Type} (xs : list X) :
  sequence_results (Ok <$> xs) = Ok xs.
Proof.
  induction xs as [|x xs IH]; [done|].
  cbn [fmap list_fmap sequence_results mbind result_bind].
  change (list_fmap X (result X) Ok xs) with (Ok <$> xs). by rewrite IH.
Qed.

Lemma tabulate_eq {X : Type} (l : list X) (f : nat -> X) (N : nat) :
  length l = N ->
  (forall t : nat, (t < N)%nat -> l !! t = Some (f t)) ->
  l = f <$> seq 0 N.
Proof.
  intros Hlen Hl. apply list_eq. intros i.
  rewrite list_lookup_fmap.
  destruct (decide (i < N)%nat) as [Hi|Hi].
  - rewrite lookup_seq_lt by done. by rewrite Hl.
  - rewrite lookup_seq_ge by lia. by rewrite lookup_ge_None_2 by lia.
Qed.

Section LossFacts.
Context {A : Type} `{Scalar A} `{TensorOps A}.

Lemma gather1_tabulate (probs : list (list A)) (actions : list nat)
    (p : nat -> A) (N : nat) :
  length actions = N ->
  (forall t : nat, (t < N)%nat ->
     exists (row : list A) (a : nat),
       probs !! t = Some row /\ actions !! t = Some a /\ row !! a = Some (p t)) ->
  gather1 probs actions = Ok (p <$> seq 0 N).
Proof.
  intros Hlen Hp. unfold gather1.
  assert (N <= length probs)%nat as Hle.
  { destruct N as [|n]; [lia|].
    destruct (Hp n) as (row & a & Hrow & _); [lia|].
    apply lookup_lt_Some in Hrow. lia. }
  rewrite bool_decide_eq_true_2 by lia.
  rewrite <- sequence_results_Ok. f_equal.
  apply list_eq. intros i.
  rewrite lookup_zip_with, !list_lookup_fmap.
  destruct (decide (i < N)%nat) as [Hi|Hi].
  - destruct (Hp i Hi) as (row & a & -> & -> & Hpa).
    rewrite lookup_seq_lt by done. cbn. by rewrite Hpa.
  - rewrite lookup_seq_ge by lia.
    rewrite (lookup_ge_None_2 actions) by lia.
    by destruct (probs !! i).
Qed.

Lemma loss_tabulate (p g : nat -> A) (N : nat) :
  PolicyNet.loss (p <$> seq 0 N) (g <$> seq 0 N)
  = Ok (sneg (mean_over N (fun t => slog (p t) * g t)%S)).
Proof.
  unfold PolicyNet.loss, torch_mul, torch_log.
  rewrite bool_decide_eq_true_2 by (by rewrite !length_fmap).
  cbn [mbind result_bind]. do 2 f_equal.
  unfold torch_mean, mean_over, tensor_sum, sum_over.
  rewrite <- list_fmap_compose, zip_with_fmap_l, zip_with_fmap_r, zip_with_diag.
  rewrite length_fmap, length_seq. f_equal.
  by rewrite foldl_fmap.
Qed.

(** C3.  For a rollout of [N] timesteps, let [p t] be the probability
    the policy assigned to the action taken at timestep [t] (the entry
    of row [t] of the policy's output that [actions[t]] selects) and
    [g t] the return at [t].  Then [gather] yields [a_probs] with
    [a_probs[t] = p t], and [PolicyNet.loss(a_probs, returns)] is the
    negative of the mean over all timesteps of [log(p t) * g t].  (This
    holds for [N = 0] too, where the mean is [0 / 0].) *)
Theorem loss_negative_mean (probs : list (list A)) (actions : list nat)
    (returns : list A) (p g : nat -> A) (N : nat) :
  length actions = N ->
  length returns = N ->
  (forall t : nat, (t < N)%nat ->
     exists (row : list A) (a : nat),
       probs !! t = Some row /\ actions !! t = Some a /\ row !! a = Some (p t)) ->
  (forall t : nat, (t < N)%nat -> returns !! t = Some (g t)) ->
  exists a_probs : list A,
    gather1 probs actions = Ok a_probs /\
    length a_probs = N /\
    (forall t : nat, (t < N)%nat -> a_probs !! t = Some (p t)) /\
    PolicyNet.loss a_probs returns
      = Ok (sneg (mean_over N (fun t => slog (p t) * g t)%S)).
Proof.
  intros Hactions Hreturns Hp Hg.
  exists (p <$> seq 0 N).
  split; [by apply gather1_tabulate|].
  split; [by rewrite length_fmap, length_seq|].
  split.
  - intros t Ht. by rewrite list_lookup_fmap, lookup_seq_lt.
  - rewrite (tabulate_eq returns g N Hreturns Hg). apply loss_tabulate.
Qed.

End LossFacts.

(** The theorem on a rollout of two steps, in symbolic arithmetic. *)
Lemma loss_negative_mean_witness :
  exists a_probs : list term,
    gather1 [[Var 0; Var 1]; [Var 2; Var 3]] [1; 0]%nat = Ok a_probs /\
    length a_probs = 2%nat /\
    (forall t : nat, (t < 2)%nat -> a_probs !! t = Some (nth t [Var 1; Var 2] Zero)) /\
    PolicyNet.loss a_probs [Var 10; Var 11]
      = Ok (Neg (Div (Add (Add Zero (Mul (Log (Var 1)) (Var 10)))
                          (Mul (Log (Var 2)) (Var 11)))
                     (OfNat 2))).
Proof.
  assert (forall t : nat, (t < 2)%nat ->
            exists (row : list term) (a : nat),
              [[Var 0; Var 1]; [Var 2; Var 3]] !! t = Some row /\
              [1; 0]%nat !! t = Some a /\
              row !! a = Some (nth t [Var 1; Var 2] Zero)) as Hp.
  { intros t Ht.
    destruct t as [|[|t]]; [by exists [Var 0; Var 1], 1%nat
                           |by exists [Var 2; Var 3], 0%nat|lia]. }
  assert (forall t : nat, (t < 2)%nat ->
            [Var 10; Var 11] !! t = Some (nth t [Var 10; Var 11] Zero)) as Hg.
  { intros t Ht. destruct t as [|[|t]]; [done|done|lia]. }
  exact (loss_negative_mean [[Var 0; Var 1]; [Var 2; Var 3]] [1; 0]%nat
           [Var 10; Var 11]
           (fun t => nth t [Var 1; Var 2] Zero)
           (fun t => nth t [Var 10; Var 11] Zero) 2 eq_refl eq_refl Hp Hg).
Defined.

(** ** The rollout *)

Section RolloutFacts.
Context {A W Obs : Type}.
Variable ext : collaborators A W Obs.
Implicit Types (st : store A W) (s : Obs) (rollout acc : list (Obs * nat * A)).

Lemma collect_rollout_cons (j : Z) (js : list Z) s acc st :
  collect_rollout ext (j :: js) s acc st =
    match rollout_step ext s st with
    | (Ok (s1, x, done), st1) =>
        if (done : bool) then (Ok (acc ++ [x]), st1)
        else collect_rollout ext js s1 (acc ++ [x]) st1
    | (Raise e, st1) => (Raise e, st1)
    end.
Proof.
  cbn [collect_rollout]. unfold rollout_step.
  rewrite !stateful_bind_unfold.
  destruct (call (policy_forward ext [s]) st) as [[a_prob|e] st1]; [|done].
  rewrite !stateful_bind_unfold.
  destruct (call (multinomial ext a_prob) st1) as [[a|e] st2]; [|done].
  rewrite !stateful_bind_unfold.
  destruct (call (env_step ext a) st2) as [[[[s1 r] d]|e] st3]; [|done].
  by destruct d.
Qed.

Lemma run_steps_S (n : nat) s st :
  run_steps ext (S n) s st =
    match rollout_step ext s st with
    | (Ok (s1, x, done), st1) =>
        match run_steps ext n s1 st1 with
        | (Ok rest, st2) => (Ok ((x, done) :: rest), st2)
        | (Raise e, st2) => (Raise e, st2)
        end
    | (Raise e, st1) => (Raise e, st1)
    end.
Proof.
  cbn [run_steps]. rewrite stateful_bind_unfold.
  destruct (rollout_step ext s st) as [[[[s1 x] d]|e] st1]; [|done].
  rewrite stateful_bind_unfold.
  by destruct (run_steps ext n s1 st1) as [[rest|e] st2].
Qed.

Lemma collect_rollout_spec (js : list Z) s acc st rollout st' :
  collect_rollout ext js s acc st = (Ok rollout, st') ->
  exists (new : list (Obs * nat * A)) (flags : list bool),
    rollout = acc ++ new /\
    (length new <= length js)%nat /\
    length flags = length new /\
    run_steps ext (length new) s st = (Ok (zip new flags), st') /\
    (forall j : nat, (S j < length new)%nat -> flags !! j = Some false) /\
    ((length new < length js)%nat -> last flags = Some true).
Proof.
  revert s acc st. induction js as [|j js IH]; intros s acc st Hrun.
  - injection Hrun as <- <-. exists [], [].
    rewrite app_nil_r. split_and!; cbn; try done; lia.
  - rewrite collect_rollout_cons in Hrun.
    destruct (rollout_step ext s st) as [[[[s1 x] d]|e] st1] eqn:Hstep;
      [|done].
    destruct d.
    + injection Hrun as <- <-. exists [x], [true].
      split_and!; cbn [length]; try done; try lia.
      by rewrite run_steps_S, Hstep.
    + destruct (IH s1 (acc ++ [x]) st1 Hrun)
        as (new & flags & -> & Hlen & Hflags & Hsteps & Hfalse & Hlast).
      exists (x :: new), (false :: flags).
      split_and!; cbn [length]; try lia.
      * by rewrite <- app_assoc.
      * by rewrite run_steps_S, Hstep, Hsteps.
      * intros [|k] Hk; [done|]. cbn. apply Hfalse. lia.
      * intros Hlt. rewrite last_cons, Hlast by lia. done.
Qed.

End RolloutFacts.

(** C5.  The rollout-collection loop of a training iteration, when it
    completes, has appended at most [rollout_limit] triples (at most 500
    under the notebook's setting); the triples are those of the first
    [length rollout] steps of the policy on the environment, one per
    call of [env.step]; every step but the last returned [done = False];
    and if the loop stopped short of the limit, its last step returned
    [done = True]. *)
Theorem rollout_bounded {A W Obs : Type} (cfg : settings A)
    (ext : collaborators A W Obs) (s : Obs) (st st' : store A W)
    (rollout : list (Obs * nat * A)) :
  collect_rollout ext (range (rollout_limit cfg)) s [] st = (Ok rollout, st') ->
  (length rollout <= Z.to_nat (rollout_limit cfg))%nat /\
  (0 <= rollout_limit cfg -> len rollout <= rollout_limit cfg)%Z /\
  (rollout_limit cfg = 500%Z -> (length rollout <= 500)%nat) /\
  exists flags : list bool,
    length flags = length rollout /\
    run_steps ext (length rollout) s st = (Ok (zip rollout flags), st') /\
    (forall j : nat, (S j < length rollout)%nat -> flags !! j = Some false) /\
    ((len rollout < rollout_limit cfg)%Z -> last flags = Some true).
Proof.
  intros Hrun.
  destruct (collect_rollout_spec ext _ s [] st rollout st' Hrun)
    as (new & flags & -> & Hlen & Hflags & Hsteps & Hfalse & Hlast).
  cbn [app] in *. unfold range in Hlen, Hlast.
  rewrite length_fmap, length_seq in Hlen, Hlast. unfold len.
  split; [done|]. split; [lia|]. split; [lia|].
  exists flags. repeat split; try done. intros Hlt. apply Hlast. lia.
Qed.

(** The theorem on the small environment, where the pole falls at the
    third step of a rollout limited to four. *)
Lemma rollout_bounded_witness :
  (length toy_rollout <= Z.to_nat 4)%nat /\
  (0 <= 4 -> len toy_rollout <= 4)%Z /\
  (4%Z = 500%Z -> (length toy_rollout <= 500)%nat) /\
  exists flags : list bool,
    length flags = length toy_rollout /\
    run_steps (toy_collaborators 3 12) (length toy_rollout) O toy_store
      = (Ok (zip toy_rollout flags), toy_store_after_rollout) /\
    (forall j : nat, (S j < length toy_rollout)%nat -> flags !! j = Some false) /\
    ((len toy_rollout < 4)%Z -> last flags = Some true).
Proof.
  assert (collect_rollout (toy_collaborators 3 12)
            (range (rollout_limit toy_settings)) O [] toy_store
          = (Ok toy_rollout, toy_store_after_rollout)) as Hrun
    by (vm_compute; reflexivity).
  exact (rollout_bounded toy_settings (toy_collaborators 3 12) O toy_store
           toy_store_after_rollout toy_rollout Hrun).
Defined.

(** ** The training cell *)

Lemma for_in_raise {St X Acc : Type} (xs : list X) (acc : Acc)
    (body : Acc -> X -> stateful St Acc) (st st' : St) (e : exn) :
  for_in xs acc body st = (Raise e, st') ->
  exists (pre : list X) (x : X) (post : list X) (acc_k : Acc) (st_k : St),
    xs = pre ++ x :: post /\
    for_in pre acc body st = (Ok acc_k, st_k) /\
    body acc_k x st_k = (Raise e, st').
Proof.
  revert acc st. induction xs as [|x xs IH]; intros acc st Hrun; [done|].
  cbn [for_in] in Hrun. rewrite stateful_bind_unfold in Hrun.
  destruct (body acc x st) as [[acc1|e1] st1] eqn:Hbody.
  - destruct (IH acc1 st1 Hrun) as (pre & y & post & acc_k & st_k & -> & Hpre & Hy).
    exists (x :: pre), y, post, acc_k, st_k. split; [done|]. split; [|done].
    cbn [for_in]. by rewrite stateful_bind_unfold, Hbody.
  - injection Hrun as <- <-. exists [], x, xs, acc, st. done.
Qed.

Lemma range_split (n : Z) (pre : list Z) (x : Z) (post : list Z) :
  range n = pre ++ x :: post ->
  pre = range (Z.of_nat (length pre)) /\ x = Z.of_nat (length pre) /\
  (Z.of_nat (length pre) < n)%Z.
Proof.
  unfold range. intros Hsplit. rewrite Nat2Z.id.
  assert (length pre < Z.to_nat n)%nat as Hlt.
  { apply (f_equal length) in Hsplit.
    rewrite length_fmap, length_seq, length_app in Hsplit.
    cbn [length] in Hsplit. lia. }
  split; [|split; [|lia]].
  - apply (f_equal (take (length pre))) in Hsplit.
    rewrite take_app_length, <- fmap_take, take_seq in Hsplit.
    rewrite Nat.min_l in Hsplit by lia. done.
  - apply (f_equal (fun l => l !! length pre)) in Hsplit.
    rewrite list_lookup_fmap, lookup_seq_lt in Hsplit by done.
    rewrite list_lookup_middle in Hsplit by done.
    cbn in Hsplit. congruence.
Qed.

Section TrainingFacts.
Context {A : Type} `{Scalar A} `{TensorOps A} {W Obs : Type}.
Variable cfg : settings A.
Variable ext : collaborators A W Obs.
Implicit Types (st : store A W).

Lemma keeps_bind {X Y : Type} (m : stateful (store A W) X)
    (f : X -> stateful (store A W) Y) :
  keeps_metrics m -> (forall x, keeps_metrics (f x)) -> keeps_metrics (m ≫= f).
Proof.
  intros Hm Hf st. rewrite stateful_bind_unfold.
  destruct (Hm st) as [Htr Hlo].
  destruct (m st) as [[x|e] st1]; cbn [snd] in *; [|done].
  destruct (Hf x st1) as [Htr' Hlo']. split; congruence.
Qed.

Lemma keeps_call {X : Type} (f : stateful W X) :
  keeps_metrics (call (A:=A) f).
Proof. intros st. unfold call. by destruct (f (world st)). Qed.

Lemma keeps_lift {X : Type} (r : result X) :
  keeps_metrics (lift r : stateful (store A W) X).
Proof. done. Qed.

Lemma keeps_ret {X : Type} (x : X) :
  keeps_metrics (mret x : stateful (store A W) X).
Proof. done. Qed.

Lemma keeps_raise {X : Type} (e : exn) :
  keeps_metrics (raise e : stateful (store A W) X).
Proof. done. Qed.

Lemma keeps_read {X : Type} (f : store A W -> X) : keeps_metrics (read f).
Proof. done. Qed.

Lemma keeps_print (m : message A) : keeps_metrics (print (W:=W) m).
Proof. done. Qed.

Lemma keeps_for_in {X Acc : Type} (xs : list X) (acc : Acc)
    (body : Acc -> X -> stateful (store A W) Acc) :
  (forall a x, keeps_metrics (body a x)) -> keeps_metrics (for_in xs acc body).
Proof.
  intros Hbody. revert acc. induction xs as [|x xs IH]; intros acc.
  - apply keeps_ret.
  - cbn [for_in]. apply keeps_bind; [apply Hbody|]. intros a. apply IH.
Qed.

Create HintDb keeps.
Local Hint Resolve keeps_call keeps_lift keeps_ret keeps_raise keeps_read
  keeps_print : keeps.

Lemma keeps_collect_rollout (js : list Z) (s : Obs) rollout :
  keeps_metrics (collect_rollout ext js s rollout).
Proof.
  revert s rollout. induction js as [|j js IH]; intros s rollout.
  - apply keeps_ret.
  - cbn [collect_rollout].
    apply keeps_bind; [auto with keeps|]. intros a_prob.
    apply keeps_bind; [auto with keeps|]. intros a.
    apply keeps_bind; [auto with keeps|]. intros [[s1 r] d].
    destruct d; [apply keeps_ret|apply IH].
Qed.

Lemma keeps_validation_rollout (js : list Z) (s : Obs) (reward : A) :
  keeps_metrics (validation_rollout ext js s reward).
Proof.
  revert s reward. induction js as [|j js IH]; intros s reward.
  - apply keeps_ret.
  - cbn [validation_rollout].
    apply keeps_bind; [auto with keeps|]. intros a_prob.
    apply keeps_bind; [auto with keeps|]. intros a.
    apply keeps_bind; [auto with keeps|]. intros [[s1 r] d].
    destruct d; [apply keeps_ret|apply IH].
Qed.

Lemma keeps_validation (i : Z) : keeps_metrics (validation cfg ext i).
Proof.
  unfold validation.
  apply keeps_bind.
  - apply keeps_for_in. intros validation_rewards k.
    apply keeps_bind; [auto with keeps|]. intros s.
    apply keeps_bind; [apply keeps_validation_rollout|]. intros reward.
    apply keeps_ret.
  - intros validation_rewards.
    apply keeps_bind; [auto with keeps|]. intros training.
    apply keeps_bind; [auto with keeps|]. intros recorded.
    apply keeps_print.
Qed.

Lemma keeps_report (i : Z) : keeps_metrics (report cfg ext i).
Proof.
  unfold report. repeat case_bool_decide; auto using keeps_validation with keeps.
Qed.

Lemma keeps_rollout_and_update : keeps_metrics (rollout_and_update cfg ext).
Proof.
  unfold rollout_and_update.
  apply keeps_bind; [auto with keeps|]. intros s.
  apply keeps_bind; [apply keeps_collect_rollout|]. intros rollout.
  apply keeps_bind; [auto with keeps|]. intros [[states actions] rewards].
  repeat (apply keeps_bind; [auto with keeps|]; intros ?).
  apply keeps_ret.
Qed.

(** An iteration only appends to the metrics; when it completes, it has
    appended one entry to each list. *)
Lemma train_episode_extends (i : Z) st :
  training_rewards st `prefix_of` training_rewards (train_episode cfg ext i st).2 /\
  losses st `prefix_of` losses (train_episode cfg ext i st).2 /\
  ((train_episode cfg ext i st).1 = Ok tt ->
   length (training_rewards (train_episode cfg ext i st).2)
     = S (length (training_rewards st)) /\
   length (losses (train_episode cfg ext i st).2) = S (length (losses st))).
Proof.
  unfold train_episode. rewrite stateful_bind_unfold.
  destruct (keeps_rollout_and_update st) as [Htr1 Hlo1].
  destruct (rollout_and_update cfg ext st) as [[[rewards loss]|e] st1];
    cbn [fst snd] in *.
  2:{ rewrite Htr1, Hlo1. done. }
  set (st2 := {| world := world st1;
                 training_rewards := training_rewards st1 ++ [py_sum rewards];
                 losses := losses st1 ++ [loss];
                 stdout := stdout st1 |}).
  assert (bookkeeping rewards loss st1 = (Ok tt, st2)) as Hbook by reflexivity.
  rewrite stateful_bind_unfold, Hbook.
  destruct (keeps_report i st2) as [Htr2 Hlo2].
  rewrite Htr2, Hlo2. cbn [st2 training_rewards losses].
  rewrite Htr1, Hlo1.
  split; [by eexists|]. split; [by eexists|].
  intros _. rewrite !length_app. cbn [length]. lia.
Qed.

Lemma episodes_lengths (xs : list Z) st st' :
  for_in xs tt (fun _ i => train_episode cfg ext i) st = (Ok tt, st') ->
  length (training_rewards st') = (length (training_rewards st) + length xs)%nat /\
  length (losses st') = (length (losses st) + length xs)%nat.
Proof.
  revert st. induction xs as [|x xs IH]; intros st Hrun.
  - injection Hrun as <-. cbn. lia.
  - cbn [for_in] in Hrun. rewrite stateful_bind_unfold in Hrun.
    destruct (train_episode_extends x st) as (_ & _ & Hlen).
    destruct (train_episode cfg ext x st) as [[[]|e] st1]; [|done].
    destruct (Hlen eq_refl) as [Htr Hlo]. cbn [snd] in *.
    destruct (IH st1 Hrun) as [Htr' Hlo']. cbn [length]. lia.
Qed.

(** When the body of the [try] raises, it does so in some iteration [k],
    after [k] complete ones. *)
Lemma train_loop_raise st (e : exn) st' :
  train_loop cfg ext st = (Raise e, st') ->
  exists (k : Z) st_k,
    (0 <= k < num_episodes cfg)%Z /\
    run_episodes cfg ext k st = (Ok tt, st_k) /\
    train_episode cfg ext k st_k = (Raise e, st') /\
    length (training_rewards st_k) = Z.to_nat k /\
    length (losses st_k) = Z.to_nat k.
Proof.
  unfold train_loop. rewrite stateful_bind_unfold.
  destruct (run_episodes cfg ext (num_episodes cfg) st) as [[[]|e'] st1] eqn:Hrun;
    [done|].
  intros [= -> ->].
  set (st0 := {| world := world st; training_rewards := []; losses := [];
                 stdout := stdout st ++ [StartTraining] |}) in *.
  change (for_in (range (num_episodes cfg)) tt
            (fun _ i => train_episode cfg ext i) st0 = (Raise e, st')) in Hrun.
  destruct (for_in_raise _ _ _ _ _ _ Hrun)
    as (pre & x & post & [] & st_k & Hsplit & Hpre & Hx).
  destruct (range_split _ _ _ _ Hsplit) as (Hrange & -> & Hlt).
  exists (Z.of_nat (length pre)), st_k.
  split; [lia|].
  change (for_in (range (Z.of_nat (length pre))) tt
            (fun _ i => train_episode cfg ext i) st0 = (Ok tt, st_k)
          /\ train_episode cfg ext (Z.of_nat (length pre)) st_k = (Raise e, st')
          /\ length (training_rewards st_k) = Z.to_nat (Z.of_nat (length pre))
          /\ length (losses st_k) = Z.to_nat (Z.of_nat (length pre))).
  rewrite <- Hrange, Nat2Z.id.
  destruct (episodes_lengths pre st0 st_k Hpre) as [Htr Hlo].
  done.
Qed.

(** C4.  Run the body of the [try] to its end.  If it raises
    [KeyboardInterrupt], the cell returns normally: the exception does
    not propagate, ['interrupt'] is printed, and [training_rewards] and
    [losses] are as they were when the exception was raised.  They hold
    what was collected so far: the interrupt came in some iteration [k],
    after [k] complete ones that left [k] entries in each list, and these
    entries begin the lists the cell leaves.  If the body raises any
    other exception, the cell raises it too, from the same state; if it
    returns, so does the cell. *)
Theorem training_cell_interrupt st (r : result unit) st' :
  train_loop cfg ext st = (r, st') ->
  match r with
  | Raise KeyboardInterrupt =>
      exists st'',
        training_cell cfg ext st = (Ok tt, st'') /\
        training_rewards st'' = training_rewards st' /\
        losses st'' = losses st' /\
        world st'' = world st' /\
        stdout st'' = stdout st' ++ [Interrupt] /\
        exists (k : Z) st_k,
          (0 <= k < num_episodes cfg)%Z /\
          run_episodes cfg ext k st = (Ok tt, st_k) /\
          length (training_rewards st_k) = Z.to_nat k /\
          length (losses st_k) = Z.to_nat k /\
          training_rewards st_k `prefix_of` training_rewards st'' /\
          losses st_k `prefix_of` losses st''
  | Raise e => training_cell cfg ext st = (Raise e, st')
  | Ok x => training_cell cfg ext st = (Ok x, st')
  end.
Proof.
  intros Hrun. unfold training_cell, try_except_KeyboardInterrupt.
  rewrite Hrun. destruct r as [x|e]; [done|].
  destruct e; try done.
  eexists. split; [reflexivity|]. cbn [training_rewards losses world stdout].
  split_and!; try done.
  destruct (train_loop_raise st _ st' Hrun)
    as (k & st_k & Hk & Hpre & Hepisode & Htr & Hlo).
  exists k, st_k. do 4 (split; [done|]). split.
  - pose proof (train_episode_extends k st_k) as (Hp & _ & _).
    rewrite Hepisode in Hp. exact Hp.
  - pose proof (train_episode_extends k st_k) as (_ & Hp & _).
    rewrite Hepisode in Hp. exact Hp.
Qed.

End TrainingFacts.

(** The theorem on the small environment, interrupted at the thirteenth
    call of [env.reset]: the first of the third iteration. *)
Lemma training_cell_interrupt_witness :
  exists st'' : store term (nat * nat),
    training_cell toy_settings (toy_collaborators 3 12) toy_store = (Ok tt, st'') /\
    training_rewards st''
      = training_rewards (train_loop toy_settings (toy_collaborators 3 12) toy_store).2 /\
    losses st''
      = losses (train_loop toy_settings (toy_collaborators 3 12) toy_store).2 /\
    world st''
      = world (train_loop toy_settings (toy_collaborators 3 12) toy_store).2 /\
    stdout st''
      = stdout (train_loop toy_settings (toy_collaborators 3 12) toy_store).2
          ++ [Interrupt] /\
    exists (k : Z) (st_k : store term (nat * nat)),
      (0 <= k < 5)%Z /\
      run_episodes toy_settings (toy_collaborators 3 12) k toy_store = (Ok tt, st_k) /\
      length (training_rewards st_k) = Z.to_nat k /\
      length (losses st_k) = Z.to_nat k /\
      training_rewards st_k `prefix_of` training_rewards st'' /\
      losses st_k `prefix_of` losses st''.
Proof.
  assert (train_loop toy_settings (toy_collaborators 3 12) toy_store
          = (Raise KeyboardInterrupt,
             (train_loop toy_settings (toy_collaborators 3 12) toy_store).2)) as Hrun
    by (vm_compute; reflexivity).
  exact (training_cell_interrupt toy_settings (toy_collaborators 3 12) toy_store
           (Raise KeyboardInterrupt) _ Hrun).
Defined.

(** On the small environment the user interrupts the third iteration:
    the cell returns, and both lists hold the two entries collected. *)
Example training_cell_interrupted_run :
  exists st'' : store term (nat * nat),
    training_cell toy_settings (toy_collaborators 3 12) toy_store = (Ok tt, st'') /\
    length (training_rewards st'') = 2%nat /\
    length (losses st'') = 2%nat /\
    last (stdout st'') = Some Interrupt.
Proof. eexists. split; [vm_compute; reflexivity|]. done. Qed.


(** An exception of the environment is not caught: with an [env.step]
    whose result does not unpack into four values, the cell raises
    [ValueError] in its first iteration. *)
Example training_cell_value_error :
  (training_cell toy_settings broken_collaborators toy_store).1 = Raise ValueError.
Proof. vm_compute. reflexivity. Qed.

(** ** More on the return calculator *)

Section ReturnSuffix.
Context {A : Type} `{Scalar A}.

Lemma discounted_tail (γ r : A) (R : list A) :
  tail (discounted γ (r :: R)) = discounted γ R.
Proof. cbn [discounted]. by destruct (discounted γ R). Qed.

Lemma discounted_drop (γ : A) (R : list A) (k : nat) :
  discounted γ (drop k R) = drop k (discounted γ R).
Proof.
  revert R. induction k as [|k IH]; intros R; [by rewrite !drop_0|].
  destruct R as [|r R]; [done|].
  rewrite skipn_cons, IH, <- (discounted_tail γ r R).
  destruct (discounted γ (r :: R)) as [|g G]; [|done].
  cbn [tail]. by rewrite !drop_nil.
Qed.

(** X1.  The returns of the last steps of an episode do not depend on
    the steps before them: when [compute_returns(R, γ)] returns [G] and
    [k < len(R)], [compute_returns(R[k:], γ)] returns [G[k:]].  This holds
    in every arithmetic, binary64 included. *)
Theorem compute_returns_suffix (R G : list A) (γ : A) (k : nat) :
  compute_returns R γ = Ok G ->
  (k < length R)%nat ->
  compute_returns (drop k R) γ = Ok (drop k G).
Proof.
  intros HG Hk.
  assert (R ≠ []) as HR by (intros ->; simpl in Hk; lia).
  rewrite compute_returns_discounted in HG by done. injection HG as <-.
  rewrite compute_returns_discounted, discounted_drop; [done|].
  intros Hnil. apply (f_equal length) in Hnil.
  rewrite length_drop in Hnil. simpl in Hnil. lia.
Qed.

End ReturnSuffix.

Lemma compute_returns_suffix_witness :
  compute_returns (drop 6 example_rewards) 0.9%float
  = Ok (drop 6 [3.560931; 3.95659; 3.2851; 2.5389999999999997; 1.71; 1.9;
                1; 0; 0; 0]%float).
Proof.
  assert (compute_returns example_rewards 0.9%float
          = Ok [3.560931; 3.95659; 3.2851; 2.5389999999999997; 1.71; 1.9;
                1; 0; 0; 0]%float) as HG by (vm_compute; reflexivity).
  assert (6 < length example_rewards)%nat as Hk by (vm_compute; lia).
  exact (compute_returns_suffix example_rewards _ 0.9%float 6 HG Hk).
Defined.

(** Exact arithmetic *)







(** Between the reward and the undiscounted rest. *)

Lemma Qc_sum_nonneg (l : list Qc) :
  Forall (fun r => (0 <= r)%Qc) l -> (0 <= Qc_sum l)%Qc.
Proof.
  induction 1 as [|r l Hr _ IH]; cbn [Qc_sum foldr]; [apply Qcle_refl|].
  replace 0%Qc with (0 + 0)%Qc by ring. by apply Qcplus_le_compat.
Qed.




(** ** More on the loss and the batch *)

Lemma sequence_results_inv {X : Type} (rs : list (result X)) (xs : list X) :
  sequence_results rs = Ok xs <-> rs = Ok <$> xs.
Proof.
  split; [|intros ->; apply sequence_results_Ok].
  revert xs. induction rs as [|r rs IH]; intros xs Hseq.
  - injection Hseq as <-. done.
  - cbn [sequence_results] in Hseq. destruct r as [x|e]; [|done].
    cbn [mbind result_bind] in Hseq.
    destruct (sequence_results rs) as [xs'|e]; [|done].
    injection Hseq as <-. by rewrite (IH xs' eq_refl).
Qed.

Lemma sequence_results_raise {X : Type} (rs : list (result X)) (e : exn) :
  sequence_results rs = Raise e -> Raise e ∈ rs.
Proof.
  induction rs as [|r rs IH]; [done|]. cbn [sequence_results].
  destruct r as [x|e']; cbn [mbind result_bind].
  - destruct (sequence_results rs) as [xs'|e'']; [done|].
    intros [= ->]. apply list_elem_of_further. by apply IH.
  - intros [= ->]. apply list_elem_of_here.
Qed.

Section LossShapes.
Context {A : Type} `{Scalar A} `{TensorOps A}.

(** X4.  The selection [policy(states).gather(1, actions)] of the update:
    it returns [a_probs] exactly when there are no more actions than rows
    of probabilities, [a_probs] has one entry per action, and entry [t] is
    the entry of row [t] that action [t] names; in every other case
    (too many actions, or an action that names no entry of its row) the
    exception is a [RuntimeError]. *)
Theorem gather1_ok (probs : list (list A)) (actions : list nat)
    (a_probs : list A) :
  (gather1 probs actions = Ok a_probs <->
   (length actions <= length probs)%nat /\
   length a_probs = length actions /\
   forall (t a : nat), actions !! t = Some a ->
     exists (row : list A) (p : A),
       probs !! t = Some row /\ row !! a = Some p /\ a_probs !! t = Some p) /\
  (forall e : exn, gather1 probs actions = Raise e -> e = RuntimeError).
Proof.
  unfold gather1. split.
  - case_bool_decide as Hle; [|split; [done|lia]].
    rewrite sequence_results_inv. split.
    + intros Hzip. split; [done|].
      assert (length a_probs = length actions) as Hlen.
      { apply (f_equal length) in Hzip.
        rewrite length_zip_with, length_fmap in Hzip. lia. }
      split; [done|]. intros t a Ha.
      destruct (lookup_lt_is_Some_2 probs t) as [row Hrow].
      { apply lookup_lt_Some in Ha. lia. }
      apply (f_equal (fun l => l !! t)) in Hzip.
      rewrite lookup_zip_with, Hrow, Ha, list_lookup_fmap in Hzip.
      cbn in Hzip. destruct (row !! a) as [p|] eqn:Hp;
        destruct (a_probs !! t) as [q|] eqn:Hq; cbn in Hzip; simplify_eq.
      by exists row, q.
    + intros (_ & Hlen & Hall). apply list_eq. intros t.
      rewrite lookup_zip_with, list_lookup_fmap.
      destruct (actions !! t) as [a|] eqn:Ha.
      * destruct (Hall t a Ha) as (row & p & -> & Hp & ->). cbn. by rewrite Hp.
      * rewrite (lookup_ge_None_2 a_probs)
          by (apply lookup_ge_None_1 in Ha; lia).
        by destruct (probs !! t).
  - intros e. case_bool_decide; [|by intros [= <-]].
    intros Hseq. apply sequence_results_raise in Hseq.
    apply list_elem_of_lookup in Hseq as [t Ht].
    rewrite lookup_zip_with in Ht.
    destruct (probs !! t) as [row|]; [|done]. cbn in Ht.
    destruct (actions !! t) as [a|]; [|done]. cbn in Ht.
    destruct (row !! a); by simplify_eq.
Qed.

(** X5.  [PolicyNet.loss] on one-dimensional tensors returns a value
    exactly when the probabilities and the returns have the same number of
    elements or one of the two has exactly one element (which is then
    broadcast); otherwise it raises, and what it raises is a
    [RuntimeError]. *)
Theorem loss_shapes (action_probabilities returns : list A) :
  ((exists l : A, PolicyNet.loss action_probabilities returns = Ok l) <->
   length action_probabilities = length returns \/
   length action_probabilities = 1%nat \/ length returns = 1%nat) /\
  (forall e : exn,
     PolicyNet.loss action_probabilities returns = Raise e -> e = RuntimeError).
Proof.
  unfold PolicyNet.loss, torch_mul, torch_log. rewrite length_fmap.
  case_bool_decide as Hlen.
  { split; [|done]. split; [by left|]. intros _. by eexists. }
  destruct action_probabilities as [|p [|p' ps]];
    destruct returns as [|g [|g' gs]]; cbn [fmap list_fmap length] in *;
    try done; (split; [split|]);
    try (intros _; by eexists); try (intros [l Hl]; done);
    try (intros [?|[?|?]]; lia);
    try (intros; by right; left); try (intros; by right; right);
    try (intros e [= <-]; done); try done.
Qed.

End LossShapes.

Section BatchShapes.
Context {A : Type} `{Scalar A} `{TensorOps A} {Obs : Type}.

(** X6.  The batch of a rollout that is not empty: [states], [actions]
    and [rewards] have one entry per step, [compute_returns] returns one
    return per step, and whenever the selection of the action
    probabilities succeeds it yields one probability per step, on which
    [policy.loss] returns a value: the shapes of the update always fit. *)
Theorem batch_shapes (rollout : list (Obs * nat * A)) (γ : A) :
  rollout ≠ [] ->
  exists (states : list Obs) (actions : list nat) (rewards returns : list A),
    prepare_batch rollout = Ok (states, actions, rewards) /\
    length states = length rollout /\
    length actions = length rollout /\
    length rewards = length rollout /\
    compute_returns rewards γ = Ok returns /\
    length returns = length rollout /\
    forall (probs : list (list A)) (a_probs : list A),
      gather1 probs actions = Ok a_probs ->
      length a_probs = length rollout /\
      exists l : A, PolicyNet.loss a_probs (sfloat32 <$> returns) = Ok l.
Proof.
  intros Hne.
  exists ((fun x => x.1.1) <$> rollout), ((fun x => x.1.2) <$> rollout),
         ((fun x => x.2) <$> rollout),
         (discounted γ ((fun x => x.2) <$> rollout)).
  split; [by destruct rollout|].
  rewrite discounted_length, !length_fmap. do 3 (split; [done|]).
  split.
  { apply compute_returns_discounted. by destruct rollout. }
  split; [done|]. intros probs a_probs Hgather.
  assert (length a_probs = length rollout) as Hlen.
  { unfold gather1 in Hgather. case_bool_decide as Hle; [|done].
    apply sequence_results_inv in Hgather.
    apply (f_equal length) in Hgather.
    rewrite length_zip_with, !length_fmap in Hgather.
    rewrite length_fmap in Hle. lia. }
  split; [done|].
  unfold PolicyNet.loss, torch_mul, torch_log.
  rewrite bool_decide_eq_true_2; [by eexists|].
  by rewrite !length_fmap, discounted_length, length_fmap.
Qed.

End BatchShapes.

Lemma batch_shapes_witness :
  exists (states : list nat) (actions : list nat) (rewards returns : list term),
    prepare_batch toy_rollout = Ok (states, actions, rewards) /\
    length states = length toy_rollout /\
    length actions = length toy_rollout /\
    length rewards = length toy_rollout /\
    compute_returns rewards One = Ok returns /\
    length returns = length toy_rollout /\
    forall (probs : list (list term)) (a_probs : list term),
      gather1 probs actions = Ok a_probs ->
      length a_probs = length toy_rollout /\
      exists l : term, PolicyNet.loss a_probs (sfloat32 <$> returns) = Ok l.
Proof.
  assert (toy_rollout ≠ []) as Hne by discriminate.
  exact (batch_shapes toy_rollout One Hne).
Defined.

(** ** More on the training cell *)

Lemma for_in_agree {St X Acc : Type} (xs : list X) (acc : Acc)
    (body body' : Acc -> X -> stateful St Acc) (st : St) :
  (forall a x st0, body a x st0 = body' a x st0) ->
  for_in xs acc body st = for_in xs acc body' st.
Proof.
  intros Hbody. revert acc st. induction xs as [|x xs IH]; intros acc st; [done|].
  cbn [for_in]. rewrite !stateful_bind_unfold, Hbody.
  destruct (body' acc x st) as [[acc1|e] st1]; [apply IH|done].
Qed.


Section IterationFacts.
Context {A : Type} `{Scalar A} `{TensorOps A} {W Obs : Type}.
Variable cfg : settings A.
Variable ext : collaborators A W Obs.
Implicit Types (st : store A W).

(** What an iteration does once the rollout and the update are done. *)
Lemma train_episode_after_update (i : Z) st (rewards : list A) (loss : A) st1 :
  rollout_and_update cfg ext st = (Ok (rewards, loss), st1) ->
  train_episode cfg ext i st =
    report cfg ext i
      {| world := world st1;
         training_rewards := training_rewards st ++ [py_sum rewards];
         losses := losses st ++ [loss];
         stdout := stdout st1 |}.
Proof.
  intros Hupdate. unfold train_episode.
  rewrite stateful_bind_unfold, Hupdate.
  destruct (keeps_rollout_and_update cfg ext st) as [Htr Hlo].
  rewrite Hupdate in Htr, Hlo. cbn [snd] in Htr, Hlo.
  assert (bookkeeping rewards loss st1
          = (Ok tt, {| world := world st1;
                       training_rewards := training_rewards st ++ [py_sum rewards];
                       losses := losses st ++ [loss];
                       stdout := stdout st1 |})) as Hbook.
  { unfold bookkeeping. rewrite stateful_bind_unfold.
    unfold append_training_reward, append_loss.
    cbn [world training_rewards losses stdout]. by rewrite Htr, Hlo. }
  by rewrite stateful_bind_unfold, Hbook.
Qed.

Lemma train_episode_update_raises (i : Z) st (e : exn) st1 :
  rollout_and_update cfg ext st = (Raise e, st1) ->
  train_episode cfg ext i st = (Raise e, st1).
Proof.
  intros Hupdate. unfold train_episode.
  by rewrite stateful_bind_unfold, Hupdate.
Qed.

(** X7.  One iteration of the training loop only ever appends to
    [training_rewards] and [losses], however it ends; when it ends without
    an exception it has appended exactly one entry to each: [sum(rewards)]
    of its rollout and the loss of its update. *)
Theorem train_episode_appends (i : Z) st (r : result unit) st' :
  train_episode cfg ext i st = (r, st') ->
  training_rewards st `prefix_of` training_rewards st' /\
  losses st `prefix_of` losses st' /\
  (r = Ok tt ->
   exists (rewards : list A) (loss : A) st1,
     rollout_and_update cfg ext st = (Ok (rewards, loss), st1) /\
     training_rewards st' = training_rewards st ++ [py_sum rewards] /\
     losses st' = losses st ++ [loss]).
Proof.
  intros Hrun.
  destruct (rollout_and_update cfg ext st) as [[[rewards loss]|e] st1] eqn:Hupdate.
  - rewrite (train_episode_after_update i st rewards loss st1 Hupdate) in Hrun.
    match type of Hrun with report cfg ext i ?st2 = _ =>
      destruct (keeps_report cfg ext i st2) as [Htr Hlo] end.
    rewrite Hrun in Htr, Hlo. cbn [snd training_rewards losses] in Htr, Hlo.
    rewrite Htr, Hlo. split; [by eexists|]. split; [by eexists|].
    intros _. by exists rewards, loss, st1.
  - rewrite (train_episode_update_raises i st e st1 Hupdate) in Hrun.
    injection Hrun as <- <-.
    destruct (keeps_rollout_and_update cfg ext st) as [Htr Hlo].
    rewrite Hupdate in Htr, Hlo. cbn [snd] in Htr, Hlo.
    rewrite Htr, Hlo. done.
Qed.

(** X8.  With [val_freq = 0] an iteration whose rollout and update
    succeed raises [ZeroDivisionError] at [(i+1) % val_freq], after the
    bookkeeping: the reward and the loss of the iteration are already
    appended, and nothing is printed. *)
Theorem val_freq_zero (i : Z) st (rewards : list A) (loss : A) st1 :
  val_freq cfg = 0%Z ->
  rollout_and_update cfg ext st = (Ok (rewards, loss), st1) ->
  train_episode cfg ext i st =
    (Raise ZeroDivisionError,
     {| world := world st1;
        training_rewards := training_rewards st ++ [py_sum rewards];
        losses := losses st ++ [loss];
        stdout := stdout st1 |}).
Proof.
  intros Hvf Hupdate.
  rewrite (train_episode_after_update i st rewards loss st1 Hupdate).
  unfold report. by rewrite bool_decide_eq_true_2.
Qed.

(** X9.  With [rollout_limit <= 0] the rollout is empty, and the
    iteration raises [IndexError] at [rollout[:,0]] right after
    [env.reset()]: nothing is appended, nothing is printed, and the
    environment and the policy are as [env.reset()] left them, whatever
    the policy, the sampler and the optimizer would do. *)
Theorem empty_rollout (i : Z) st (s : Obs) (w : W) :
  (rollout_limit cfg <= 0)%Z ->
  env_reset ext (world st) = (Ok s, w) ->
  train_episode cfg ext i st =
    (Raise IndexError,
     {| world := w; training_rewards := training_rewards st;
        losses := losses st; stdout := stdout st |}).
Proof.
  intros Hlimit Hreset. apply train_episode_update_raises.
  unfold rollout_and_update.
  rewrite stateful_bind_unfold. unfold call at 1. rewrite Hreset.
  assert (range (rollout_limit cfg) = []) as ->.
  { unfold range. by replace (Z.to_nat (rollout_limit cfg)) with 0%nat by lia. }
  reflexivity.
Qed.

End IterationFacts.

Section Independence.
Context {A : Type} `{Scalar A} `{TensorOps A} {W Obs : Type}.
Variable cfg : settings A.
Variables ext ext' : collaborators A W Obs.
Implicit Types (st : store A W).

Lemma validation_rollout_agree (js : list Z) (s : Obs) (reward : A) st :
  env_step ext = env_step ext' ->
  policy_forward ext = policy_forward ext' ->
  argmax ext = argmax ext' ->
  validation_rollout ext js s reward st = validation_rollout ext' js s reward st.
Proof.
  intros Hstep Hforward Hargmax. revert s reward st.
  induction js as [|j js IH]; intros s reward st; [done|].
  cbn [validation_rollout]. rewrite Hstep, Hforward, Hargmax.
  rewrite !stateful_bind_unfold.
  destruct (call (policy_forward ext' [s]) st) as [[a_prob|e] st1]; [|done].
  rewrite !stateful_bind_unfold.
  destruct (call (argmax ext' a_prob) st1) as [[a|e] st2]; [|done].
  rewrite !stateful_bind_unfold.
  destruct (call (env_step ext' a) st2) as [[[[s1 r] d]|e] st3]; [|done].
  destruct d; [done|apply IH].
Qed.

(** X10.  The validation depends on [env.reset], [env.step], the
    policy's forward pass and [argmax] alone: it runs the same with any
    other sampler and optimizer (it calls neither [torch.multinomial] nor
    [zero_grad], [backward] or [optimizer.step]), and it leaves
    [training_rewards] and [losses] as they are. *)
Theorem validation_only_evaluates (i : Z) st :
  env_reset ext = env_reset ext' ->
  env_step ext = env_step ext' ->
  policy_forward ext = policy_forward ext' ->
  argmax ext = argmax ext' ->
  validation cfg ext i st = validation cfg ext' i st /\
  training_rewards (validation cfg ext i st).2 = training_rewards st /\
  losses (validation cfg ext i st).2 = losses st.
Proof.
  intros Hreset Hstep Hforward Hargmax. split; [|apply keeps_validation].
  unfold validation. rewrite !stateful_bind_unfold.
  rewrite (for_in_agree _ _ _
             (fun validation_rewards (_ : Z) =>
                s ← call (env_reset ext');
                reward ← validation_rollout ext' (range (rollout_limit cfg)) s szero;
                mret (validation_rewards ++ [reward]))); [done|].
  intros acc x st0. rewrite Hreset, !stateful_bind_unfold.
  destruct (call (env_reset ext') st0) as [[s|e] st1]; [|done].
  rewrite !stateful_bind_unfold.
  by rewrite validation_rollout_agree.
Qed.

(** X11.  The rollout of the training depends on [env.step], the policy's
    forward pass and [torch.multinomial] alone: it never takes the greedy
    action and never touches the optimizer. *)
Theorem rollout_only_samples (js : list Z) (s : Obs)
    (rollout : list (Obs * nat * A)) st :
  env_step ext = env_step ext' ->
  policy_forward ext = policy_forward ext' ->
  multinomial ext = multinomial ext' ->
  collect_rollout ext js s rollout st = collect_rollout ext' js s rollout st.
Proof using Type.
  intros Hstep Hforward Hsample. revert s rollout st.
  induction js as [|j js IH]; intros s rollout st; [done|].
  rewrite !collect_rollout_cons. unfold rollout_step.
  rewrite Hstep, Hforward, Hsample.
  match goal with |- context [match ?m with _ => _ end] =>
    destruct m as [[[[s1 x] d]|e] st1] end; [|done].
  destruct d; [done|apply IH].
Qed.

End Independence.


Section PrintingFacts.
Context {A : Type} `{Scalar A} `{TensorOps A} {W Obs : Type}.
Variable cfg : settings A.
Variable ext : collaborators A W Obs.
Implicit Types (st : store A W).

Lemma quiet_bind {X Y : Type} (m : stateful (store A W) X)
    (f : X -> stateful (store A W) Y) :
  keeps_stdout m -> (forall x, keeps_stdout (f x)) -> keeps_stdout (m ≫= f).
Proof.
  intros Hm Hf st. rewrite stateful_bind_unfold.
  pose proof (Hm st) as Hout.
  destruct (m st) as [[x|e] st1]; cbn [snd] in *; [|done].
  by rewrite (Hf x st1).
Qed.

Lemma quiet_call {X : Type} (f : stateful W X) : keeps_stdout (call (A:=A) f).
Proof. intros st. unfold call. by destruct (f (world st)). Qed.

Lemma quiet_lift {X : Type} (r : result X) :
  keeps_stdout (lift r : stateful (store A W) X).
Proof. done. Qed.

Lemma quiet_ret {X : Type} (x : X) :
  keeps_stdout (mret x : stateful (store A W) X).
Proof. done. Qed.

Lemma quiet_read {X : Type} (f : store A W -> X) : keeps_stdout (read f).
Proof. done. Qed.

Lemma quiet_for_in {X Acc : Type} (xs : list X) (acc : Acc)
    (body : Acc -> X -> stateful (store A W) Acc) :
  (forall a x, keeps_stdout (body a x)) -> keeps_stdout (for_in xs acc body).
Proof.
  intros Hbody. revert acc. induction xs as [|x xs IH]; intros acc.
  - apply quiet_ret.
  - cbn [for_in]. apply quiet_bind; [apply Hbody|]. intros a. apply IH.
Qed.

Create HintDb quiet.
Local Hint Resolve quiet_call quiet_lift quiet_ret quiet_read : quiet.

Lemma quiet_collect_rollout (js : list Z) (s : Obs) rollout :
  keeps_stdout (collect_rollout ext js s rollout).
Proof.
  revert s rollout. induction js as [|j js IH]; intros s rollout.
  - apply quiet_ret.
  - cbn [collect_rollout].
    apply quiet_bind; [auto with quiet|]. intros a_prob.
    apply quiet_bind; [auto with quiet|]. intros a.
    apply quiet_bind; [auto with quiet|]. intros [[s1 r] d].
    destruct d; [apply quiet_ret|apply IH].
Qed.

Lemma quiet_validation_rollout (js : list Z) (s : Obs) (reward : A) :
  keeps_stdout (validation_rollout ext js s reward).
Proof.
  revert s reward. induction js as [|j js IH]; intros s reward.
  - apply quiet_ret.
  - cbn [validation_rollout].
    apply quiet_bind; [auto with quiet|]. intros a_prob.
    apply quiet_bind; [auto with quiet|]. intros a.
    apply quiet_bind; [auto with quiet|]. intros [[s1 r] d].
    destruct d; [apply quiet_ret|apply IH].
Qed.

Lemma quiet_rollout_and_update : keeps_stdout (rollout_and_update cfg ext).
Proof.
  unfold rollout_and_update.
  apply quiet_bind; [auto with quiet|]. intros s.
  apply quiet_bind; [apply quiet_collect_rollout|]. intros rollout.
  apply quiet_bind; [auto with quiet|]. intros [[states actions] rewards].
  repeat (apply quiet_bind; [auto with quiet|]; intros ?).
  apply quiet_ret.
Qed.

Lemma validation_episodes_silent st :
  stdout (validation_episodes cfg ext st).2 = stdout st /\
  training_rewards (validation_episodes cfg ext st).2 = training_rewards st /\
  losses (validation_episodes cfg ext st).2 = losses st.
Proof.
  split.
  - apply quiet_for_in. intros acc x.
    apply quiet_bind; [auto with quiet|]. intros s.
    apply quiet_bind; [apply quiet_validation_rollout|]. intros reward.
    apply quiet_ret.
  - assert (keeps_metrics (validation_episodes cfg ext)) as Hkeeps; [|exact (Hkeeps st)].
    apply (keeps_for_in cfg ext). intros acc x.
    apply (keeps_bind cfg ext); [apply (keeps_call cfg ext)|]. intros s.
    apply (keeps_bind cfg ext); [apply (keeps_validation_rollout cfg)|].
    intros reward. apply (keeps_ret cfg ext).
Qed.


Lemma validation_unfold (i : Z) st :
  validation cfg ext i st =
    match validation_episodes cfg ext st with
    | (Ok validation_rewards, st1) =>
        print (Progress (i + 1)
                 (torch_mean (slice_from (training_rewards st1) (- val_freq cfg)))
                 (torch_mean validation_rewards)
                 (torch_mean (slice_from (losses st1) (- val_freq cfg)))) st1
    | (Raise e, st1) => (Raise e, st1)
    end.
Proof.
  unfold validation. rewrite stateful_bind_unfold. fold (validation_episodes cfg ext).
  by destruct (validation_episodes cfg ext st) as [[vr|e] st1].
Qed.


End PrintingFacts.

Section CompletionFacts.
Context {A : Type} `{Scalar A} `{TensorOps A} {W Obs : Type}.
Variable cfg : settings A.
Variable ext : collaborators A W Obs.
Implicit Types (st : store A W).

Lemma train_episode_prints (i : Z) st st' :
  train_episode cfg ext i st = (Ok tt, st') ->
  val_freq cfg ≠ 0%Z /\
  exists reports : list (message A),
    stdout st' = stdout st ++ reports /\
    Forall is_progress reports /\
    progress_episodes reports
      = filter (fun j => (j `mod` val_freq cfg = 0)%Z) [(i + 1)%Z].
Proof.
  intros Hrun.
  destruct (rollout_and_update cfg ext st) as [[[rewards loss]|e] st1] eqn:Hupdate.
  2:{ by rewrite (train_episode_update_raises cfg ext i st e st1 Hupdate) in Hrun. }
  rewrite (train_episode_after_update cfg ext i st rewards loss st1 Hupdate) in Hrun.
  pose proof (quiet_rollout_and_update cfg ext st) as Hquiet.
  rewrite Hupdate in Hquiet. cbn [snd] in Hquiet.
  unfold report in Hrun.
  case_bool_decide as Hvf; [done|]. split; [done|].
  rewrite filter_cons, filter_nil.
  case_bool_decide as Hdiv.
  - rewrite decide_True by done.
    rewrite validation_unfold in Hrun.
    match type of Hrun with context [validation_episodes cfg ext ?st2] =>
      destruct (validation_episodes_silent cfg ext st2) as (Hout & _ & _);
      destruct (validation_episodes cfg ext st2) as [[vr|e] st3]; [|done] end.
    cbn [snd stdout] in Hout. unfold print in Hrun. injection Hrun as <-.
    cbn [stdout]. rewrite Hout, Hquiet.
    eexists [_]. split; [done|]. split; [|done].
    constructor; [|done]. by eexists _, _, _, _.
  - rewrite decide_False by done. injection Hrun as <-. cbn [stdout].
    exists []. rewrite app_nil_r. by split.
Qed.

Lemma episodes_print (xs : list Z) st st' :
  for_in xs tt (fun _ i => train_episode cfg ext i) st = (Ok tt, st') ->
  exists reports : list (message A),
    stdout st' = stdout st ++ reports /\
    Forall is_progress reports /\
    progress_episodes reports
      = filter (fun j => (j `mod` val_freq cfg = 0)%Z) ((fun i => i + 1)%Z <$> xs).
Proof.
  revert st. induction xs as [|x xs IH]; intros st Hrun.
  - injection Hrun as <-. exists []. rewrite app_nil_r. by split.
  - cbn [for_in] in Hrun. rewrite stateful_bind_unfold in Hrun.
    destruct (train_episode cfg ext x st) as [[[]|e] st1] eqn:Hepisode; [|done].
    destruct (train_episode_prints x st st1 Hepisode)
      as (_ & rep1 & Hout1 & Hall1 & Hep1).
    destruct (IH st1 Hrun) as (rep2 & Hout2 & Hall2 & Hep2).
    exists (rep1 ++ rep2). split; [by rewrite Hout2, Hout1, app_assoc|].
    split; [by apply Forall_app|].
    unfold progress_episodes in *. rewrite omap_app, Hep1, Hep2.
    rewrite fmap_cons.
    exact (eq_sym (filter_app _ [(x + 1)%Z] ((fun i => i + 1)%Z <$> xs))).
Qed.

Lemma train_loop_returns st st' :
  train_loop cfg ext st = (Ok tt, st') ->
  length (training_rewards st') = Z.to_nat (num_episodes cfg) /\
  length (losses st') = Z.to_nat (num_episodes cfg) /\
  exists reports : list (message A),
    stdout st' = stdout st ++ [StartTraining] ++ reports ++ [Done] /\
    Forall is_progress reports /\
    progress_episodes reports
      = filter (fun j => (j `mod` val_freq cfg = 0)%Z)
          ((fun i => i + 1)%Z <$> range (num_episodes cfg)).
Proof.
  unfold train_loop. rewrite stateful_bind_unfold.
  destruct (run_episodes cfg ext (num_episodes cfg) st) as [[[]|e] st1] eqn:Hrun;
    [|done].
  unfold print. intros [= <-]. cbn [training_rewards losses stdout].
  set (st0 := {| world := world st; training_rewards := []; losses := [];
                 stdout := stdout st ++ [StartTraining] |}).
  change (for_in (range (num_episodes cfg)) tt
            (fun _ i => train_episode cfg ext i) st0 = (Ok tt, st1)) in Hrun.
  destruct (episodes_lengths cfg ext _ st0 st1 Hrun) as [Htr Hlo].
  destruct (episodes_print _ st0 st1 Hrun) as (reports & Hout & Hall & Hep).
  cbn [st0 training_rewards losses stdout length] in *.
  unfold range in Htr, Hlo. rewrite length_fmap, length_seq in Htr, Hlo.
  split; [done|]. split; [done|].
  exists reports. split; [|done]. rewrite Hout. by rewrite <- !app_assoc.
Qed.

(** X13.  When the body of the [try] runs to its end, [training_rewards]
    and [losses] have [num_episodes] entries each, and the output is
    ['start training'], then one progress line for each episode number in
    [1..num_episodes] that [val_freq] divides, in increasing order, then
    ['done']. *)
Theorem training_completes st st' :
  train_loop cfg ext st = (Ok tt, st') ->
  length (training_rewards st') = Z.to_nat (num_episodes cfg) /\
  length (losses st') = Z.to_nat (num_episodes cfg) /\
  exists reports : list (message A),
    stdout st' = stdout st ++ [StartTraining] ++ reports ++ [Done] /\
    Forall is_progress reports /\
    progress_episodes reports
      = filter (fun j => (j `mod` val_freq cfg = 0)%Z)
          ((fun i => i + 1)%Z <$> range (num_episodes cfg)).
Proof. apply train_loop_returns. Qed.

End CompletionFacts.

(** ** When the collaborators do their part *)

Lemma returns_bind {St X Y : Type} (m : stateful St X) (f : X -> stateful St Y)
    (P : X -> Prop) (Q : Y -> Prop) :
  always_returns m P ->
  (forall x, P x -> always_returns (f x) Q) ->
  always_returns (m ≫= f) Q.
Proof.
  intros Hm Hf st. destruct (Hm st) as (x & st1 & Hrun & Hx).
  rewrite stateful_bind_unfold, Hrun. by apply Hf.
Qed.

Lemma returns_ret {St X : Type} (x : X) (P : X -> Prop) :
  P x -> always_returns (mret x : stateful St X) P.
Proof. intros Hx st. by exists x, st. Qed.

Lemma returns_lift {St X : Type} (r : result X) (x : X) (P : X -> Prop) :
  r = Ok x -> P x -> always_returns (lift r : stateful St X) P.
Proof. intros -> Hx st. by exists x, st. Qed.

Lemma returns_weaken {St X : Type} (m : stateful St X) (P Q : X -> Prop) :
  always_returns m P -> (forall x, P x -> Q x) -> always_returns m Q.
Proof.
  intros Hm HPQ st. destruct (Hm st) as (x & st1 & Hrun & Hx).
  exists x, st1. auto.
Qed.

Lemma returns_for_in {St X Acc : Type} (xs : list X) (acc : Acc)
    (body : Acc -> X -> stateful St Acc) (I : Acc -> Prop) :
  (forall a x, I a -> always_returns (body a x) I) ->
  I acc -> always_returns (for_in xs acc body) I.
Proof.
  intros Hbody. revert acc. induction xs as [|x xs IH]; intros acc Hacc.
  - by apply returns_ret.
  - cbn [for_in]. eapply returns_bind; [by apply Hbody|]. intros a Ha. by apply IH.
Qed.

Section Completion.
Context {A : Type} `{Scalar A} `{TensorOps A} {W Obs : Type}.
Variable cfg : settings A.
Variable ext : collaborators A W Obs.
Variable n_outputs : nat.
Hypothesis Hext : well_behaved ext n_outputs.
Implicit Types (st : store A W).

Lemma returns_call {X : Type} (f : stateful W X) (P : X -> Prop) :
  always_returns f P -> always_returns (call (A:=A) f) P.
Proof.
  intros Hf st. destruct (Hf (world st)) as (x & w & Hrun & Hx).
  unfold call. rewrite Hrun. by eexists _, _.
Qed.

Lemma collect_rollout_returns (js : list Z) (s : Obs)
    (acc : list (Obs * nat * A)) :
  Forall (fun x => (x.1.2 < n_outputs)%nat) acc ->
  always_returns (collect_rollout ext js s acc)
    (fun rollout => (length acc + length (take 1 js) <= length rollout)%nat /\
                    Forall (fun x => (x.1.2 < n_outputs)%nat) rollout).
Proof.
  revert s acc. induction js as [|j js IH]; intros s acc Hacc.
  - apply returns_ret. split; [cbn; lia|done].
  - cbn [collect_rollout].
    eapply returns_bind;
      [apply returns_call, (policy_forward_returns _ _ Hext)|].
    intros a_prob _.
    eapply returns_bind; [apply returns_call, (multinomial_returns _ _ Hext)|].
    intros a Ha. cbn beta in Ha.
    eapply returns_bind; [by apply returns_call, (env_step_returns _ _ Hext)|].
    intros [[s1 r] d] _.
    assert (Forall (fun x => (x.1.2 < n_outputs)%nat) (acc ++ [(s, a, r)])) as Hacc'.
    { apply Forall_app. split; [done|]. by constructor. }
    destruct d.
    + apply returns_ret. split; [|done]. rewrite length_app. simpl. lia.
    + eapply returns_weaken; [by apply IH|].
      intros rollout [Hlen Hall]. split; [|done].
      rewrite length_app in Hlen. simpl in *. lia.
Qed.

Lemma validation_rollout_returns (js : list Z) (s : Obs) (reward : A) :
  always_returns (validation_rollout ext js s reward) (fun _ => True).
Proof.
  revert s reward. induction js as [|j js IH]; intros s reward.
  - by apply returns_ret.
  - cbn [validation_rollout].
    eapply returns_bind;
      [apply returns_call, (policy_forward_returns _ _ Hext)|].
    intros a_prob _.
    eapply returns_bind; [apply returns_call, (argmax_returns _ _ Hext)|].
    intros a Ha. cbn beta in Ha.
    eapply returns_bind; [by apply returns_call, (env_step_returns _ _ Hext)|].
    intros [[s1 r] d] _.
    destruct d; [by apply returns_ret|apply IH].
Qed.

Lemma validation_returns (i : Z) :
  always_returns (validation cfg ext i) (fun _ => True).
Proof.
  unfold validation.
  eapply returns_bind.
  - apply (returns_for_in _ _ _ (fun _ => True)); [|done]. intros acc x _.
    eapply returns_bind; [apply returns_call, (env_reset_returns _ _ Hext)|].
    intros s _.
    eapply returns_bind; [apply validation_rollout_returns|]. intros reward _.
    by apply returns_ret.
  - intros validation_rewards _ st. eexists tt, _. split; [reflexivity|done].
Qed.

Lemma gather1_returns (probs : list (list A)) (actions : list nat) :
  (length actions <= length probs)%nat ->
  Forall (fun row => length row = n_outputs) probs ->
  Forall (fun a => (a < n_outputs)%nat) actions ->
  exists a_probs : list A,
    gather1 probs actions = Ok a_probs /\ length a_probs = length actions.
Proof.
  intros Hle Hrows Hactions. unfold gather1.
  rewrite bool_decide_eq_true_2 by done.
  revert actions Hle Hactions.
  induction Hrows as [|row probs Hrow _ IH]; intros actions Hle Hactions.
  - exists []. destruct actions; [done|cbn in Hle; lia].
  - destruct actions as [|a actions]; [by exists []|].
    inversion Hactions as [|? ? Ha Hrest]; subst.
    destruct (IH actions) as (a_probs & Hseq & Hlen); [cbn in Hle; lia|done|].
    destruct (lookup_lt_is_Some_2 row a) as [p Hp]; [lia|].
    exists (p :: a_probs). cbn [zip_with sequence_results].
    rewrite Hp. cbn [mbind result_bind]. rewrite Hseq.
    cbn [mbind result_bind length]. by rewrite Hlen.
Qed.

Lemma rollout_and_update_returns :
  (1 <= rollout_limit cfg)%Z ->
  always_returns (rollout_and_update cfg ext) (fun _ => True).
Proof.
  intros Hlimit. unfold rollout_and_update.
  eapply returns_bind; [apply returns_call, (env_reset_returns _ _ Hext)|].
  intros s _.
  eapply returns_bind; [by apply collect_rollout_returns|].
  intros rollout [Hlen Hall].
  assert (rollout ≠ []) as Hne.
  { intros ->. unfold range in Hlen.
    destruct (Z.to_nat (rollout_limit cfg)) as [|n] eqn:Hn; [lia|].
    cbn in Hlen. lia. }
  eapply returns_bind.
  { apply (returns_lift _ ((fun x => x.1.1) <$> rollout,
                           (fun x => x.1.2) <$> rollout,
                           (fun x => x.2) <$> rollout)
             (fun b => b = ((fun x => x.1.1) <$> rollout,
                            (fun x => x.1.2) <$> rollout,
                            (fun x => x.2) <$> rollout)));
      [by destruct rollout|reflexivity]. }
  intros [[states actions] rewards] [= -> -> ->].
  eapply returns_bind.
  { apply (returns_lift _ (discounted (discount_factor cfg)
                             ((fun x => x.2) <$> rollout))
             (fun b => b = discounted (discount_factor cfg)
                             ((fun x => x.2) <$> rollout)));
      [|reflexivity].
    apply compute_returns_discounted. by destruct rollout. }
  intros returns ->.
  eapply returns_bind; [apply returns_call, (zero_grad_returns _ _ Hext)|].
  intros _ _.
  eapply returns_bind;
    [apply returns_call, (policy_forward_returns _ _ Hext)|].
  intros probs [Hprobs Hrows].
  destruct (gather1_returns probs ((fun x => x.1.2) <$> rollout))
    as (a_probs & Hgather & Hlen_a).
  { rewrite Hprobs, !length_fmap. done. }
  { done. }
  { by apply Forall_fmap. }
  eapply returns_bind.
  { apply (returns_lift _ a_probs (fun b => b = a_probs)); done. }
  intros ? ->.
  eapply returns_bind.
  { unfold PolicyNet.loss, torch_mul, torch_log.
    rewrite bool_decide_eq_true_2
      by (by rewrite !length_fmap, Hlen_a, discounted_length, !length_fmap).
    cbn [mbind result_bind].
    by eapply (returns_lift _ _ (fun _ => True)). }
  intros loss _.
  eapply returns_bind; [apply returns_call, (backward_returns _ _ Hext)|].
  intros _ _.
  eapply returns_bind; [apply returns_call, (optimizer_step_returns _ _ Hext)|].
  intros _ _. by apply returns_ret.
Qed.

Lemma train_episode_returns (i : Z) :
  (1 <= rollout_limit cfg)%Z ->
  val_freq cfg ≠ 0%Z ->
  always_returns (train_episode cfg ext i) (fun _ => True).
Proof.
  intros Hlimit Hvf. unfold train_episode.
  eapply returns_bind; [by apply rollout_and_update_returns|].
  intros [rewards loss] _.
  eapply (returns_bind _ _ (fun _ => True)).
  { intros st. eexists tt, _. split; [reflexivity|done]. }
  intros _ _. unfold report.
  rewrite bool_decide_eq_false_2 by done.
  case_bool_decide; [apply validation_returns|by apply returns_ret].
Qed.

Lemma train_loop_always_returns :
  (1 <= rollout_limit cfg)%Z ->
  val_freq cfg ≠ 0%Z ->
  always_returns (train_loop cfg ext) (fun _ => True).
Proof.
  intros Hlimit Hvf. unfold train_loop, run_episodes.
  eapply returns_bind.
  { eapply (returns_bind _ _ (fun _ => True));
      [intros st; eexists tt, _; split; [reflexivity|done]|]. intros _ _.
    eapply (returns_bind _ _ (fun _ => True));
      [intros st; eexists tt, _; split; [reflexivity|done]|]. intros _ _.
    apply (returns_for_in _ _ _ (fun _ => True)); [|done].
    intros [] i _. by apply train_episode_returns. }
  intros _ _ st. eexists tt, _. split; [reflexivity|done].
Qed.

(** X14.  With collaborators that do their part (no call raises, the
    policy returns one row of [n_outputs] probabilities per state, the
    sampler and [argmax] return actions below [n_outputs]), a rollout
    limit of at least one and [val_freq] other than zero, the training
    cell runs to its end from every state: it returns without an
    exception, [training_rewards] and [losses] have [num_episodes] entries
    each, and the last line printed is ['done']. *)
Theorem training_cell_completes st :
  (1 <= rollout_limit cfg)%Z ->
  val_freq cfg ≠ 0%Z ->
  exists st',
    training_cell cfg ext st = (Ok tt, st') /\
    length (training_rewards st') = Z.to_nat (num_episodes cfg) /\
    length (losses st') = Z.to_nat (num_episodes cfg) /\
    last (stdout st') = Some Done.
Proof.
  intros Hlimit Hvf.
  destruct (train_loop_always_returns Hlimit Hvf st) as ([] & st' & Hrun & _).
  exists st'. unfold training_cell, try_except_KeyboardInterrupt. rewrite Hrun.
  split; [done|].
  destruct (train_loop_returns cfg ext st st' Hrun)
    as (Htr & Hlo & reports & Hout & _).
  do 2 (split; [done|]).
  rewrite Hout, !app_assoc. apply last_snoc.
Qed.

End Completion.

Section Alignment.
Context {A : Type} `{Scalar A} `{TensorOps A} {W Obs : Type}.
Variable cfg : settings A.
Variable ext : collaborators A W Obs.
Implicit Types (st : store A W).



End Alignment.

(** ** The training cell on the small environment *)

Lemma train_episode_appends_witness :
  training_rewards toy_store `prefix_of`
    training_rewards (train_episode toy_settings (steady_collaborators 3) 1 toy_store).2 /\
  losses toy_store `prefix_of`
    losses (train_episode toy_settings (steady_collaborators 3) 1 toy_store).2 /\
  ((train_episode toy_settings (steady_collaborators 3) 1 toy_store).1 = Ok tt ->
   exists (rewards : list term) (loss : term) st1,
     rollout_and_update toy_settings (steady_collaborators 3) toy_store
       = (Ok (rewards, loss), st1) /\
     training_rewards (train_episode toy_settings (steady_collaborators 3) 1 toy_store).2
       = training_rewards toy_store ++ [py_sum rewards] /\
     losses (train_episode toy_settings (steady_collaborators 3) 1 toy_store).2
       = losses toy_store ++ [loss]).
Proof.
  assert (train_episode toy_settings (steady_collaborators 3) 1 toy_store
          = ((train_episode toy_settings (steady_collaborators 3) 1 toy_store).1,
             (train_episode toy_settings (steady_collaborators 3) 1 toy_store).2))
    as Hrun by (vm_compute; reflexivity).
  exact (train_episode_appends toy_settings (steady_collaborators 3) 1 toy_store
           _ _ Hrun).
Defined.

Lemma val_freq_zero_witness :
  train_episode unvalidated_settings (steady_collaborators 3) 0 toy_store =
    (Raise ZeroDivisionError,
     {| world := world toy_store_after_update;
        training_rewards := training_rewards toy_store ++ [py_sum [One; One; One]];
        losses := losses toy_store ++ [toy_loss];
        stdout := stdout toy_store_after_update |}).
Proof.
  assert (val_freq unvalidated_settings = 0%Z) as Hvf by reflexivity.
  assert (rollout_and_update unvalidated_settings (steady_collaborators 3) toy_store
          = (Ok ([One; One; One], toy_loss), toy_store_after_update)) as Hupdate
    by (vm_compute; reflexivity).
  exact (val_freq_zero unvalidated_settings (steady_collaborators 3) 0 toy_store
           [One; One; One] toy_loss toy_store_after_update Hvf Hupdate).
Defined.

Lemma empty_rollout_witness :
  train_episode stepless_settings (steady_collaborators 3) 0 toy_store =
    (Raise IndexError,
     {| world := (1, 0)%nat; training_rewards := training_rewards toy_store;
        losses := losses toy_store; stdout := stdout toy_store |}).
Proof.
  assert (rollout_limit stepless_settings <= 0)%Z as Hlimit by (vm_compute; discriminate).
  assert (env_reset (steady_collaborators 3) (world toy_store) = (Ok O, (1, 0)%nat))
    as Hreset by reflexivity.
  exact (empty_rollout stepless_settings (steady_collaborators 3) 0 toy_store
           O (1, 0)%nat Hlimit Hreset).
Defined.

Lemma validation_only_evaluates_witness :
  validation toy_settings (toy_collaborators 3 12) 1 toy_store
    = validation toy_settings frozen_collaborators 1 toy_store /\
  training_rewards (validation toy_settings (toy_collaborators 3 12) 1 toy_store).2
    = training_rewards toy_store /\
  losses (validation toy_settings (toy_collaborators 3 12) 1 toy_store).2
    = losses toy_store.
Proof.
  assert (env_reset (toy_collaborators 3 12) = env_reset frozen_collaborators)
    as Hreset by reflexivity.
  assert (env_step (toy_collaborators 3 12) = env_step frozen_collaborators)
    as Hstep by reflexivity.
  assert (policy_forward (toy_collaborators 3 12) = policy_forward frozen_collaborators)
    as Hforward by reflexivity.
  assert (argmax (toy_collaborators 3 12) = argmax frozen_collaborators)
    as Hargmax by reflexivity.
  exact (validation_only_evaluates toy_settings (toy_collaborators 3 12)
           frozen_collaborators 1 toy_store Hreset Hstep Hforward Hargmax).
Defined.

Lemma rollout_only_samples_witness :
  collect_rollout (toy_collaborators 3 0) (range 4) O [] toy_store
    = collect_rollout (steady_collaborators 3) (range 4) O [] toy_store.
Proof.
  assert (env_step (toy_collaborators 3 0) = env_step (steady_collaborators 3))
    as Hstep by reflexivity.
  assert (policy_forward (toy_collaborators 3 0)
          = policy_forward (steady_collaborators 3)) as Hforward by reflexivity.
  assert (multinomial (toy_collaborators 3 0) = multinomial (steady_collaborators 3))
    as Hsample by reflexivity.
  exact (rollout_only_samples (toy_collaborators 3 0) (steady_collaborators 3)
           (range 4) O [] toy_store Hstep Hforward Hsample).
Defined.


Lemma training_completes_witness :
  length (training_rewards
            (train_loop toy_settings (steady_collaborators 3) toy_store).2)
    = Z.to_nat (num_episodes toy_settings) /\
  length (losses (train_loop toy_settings (steady_collaborators 3) toy_store).2)
    = Z.to_nat (num_episodes toy_settings) /\
  exists reports : list (message term),
    stdout (train_loop toy_settings (steady_collaborators 3) toy_store).2
      = stdout toy_store ++ [StartTraining] ++ reports ++ [Done] /\
    Forall is_progress reports /\
    progress_episodes reports
      = filter (fun j => (j `mod` val_freq toy_settings = 0)%Z)
          ((fun i => i + 1)%Z <$> range (num_episodes toy_settings)).
Proof.
  assert (train_loop toy_settings (steady_collaborators 3) toy_store
          = (Ok tt, (train_loop toy_settings (steady_collaborators 3) toy_store).2))
    as Hrun by (vm_compute; reflexivity).
  exact (training_completes toy_settings (steady_collaborators 3) toy_store _ Hrun).
Defined.

Lemma steady_well_behaved (fall_after : nat) :
  well_behaved (steady_collaborators fall_after) 2.
Proof.
  split.
  - intros w. by eexists _, _.
  - intros a _ w. by eexists _, _.
  - intros states w. eexists _, _. split; [reflexivity|].
    split; [by rewrite length_fmap|]. apply Forall_fmap, Forall_forall. done.
  - intros probs w. eexists _, _. split; [reflexivity|].
    cbn beta. apply Nat.mod_upper_bound. lia.
  - intros probs w. eexists _, _. split; [reflexivity|]. cbn beta. lia.
  - intros w. by eexists _, _.
  - intros loss w. by eexists _, _.
  - intros w. by eexists _, _.
Qed.

Lemma training_cell_completes_witness :
  exists st',
    training_cell toy_settings (steady_collaborators 3) toy_store = (Ok tt, st') /\
    length (training_rewards st') = Z.to_nat (num_episodes toy_settings) /\
    length (losses st') = Z.to_nat (num_episodes toy_settings) /\
    last (stdout st') = Some Done.
Proof.
  assert (1 <= rollout_limit toy_settings)%Z as Hlimit by (vm_compute; discriminate).
  assert (val_freq toy_settings ≠ 0%Z) as Hvf by (vm_compute; discriminate).
  exact (training_cell_completes toy_settings (steady_collaborators 3) 2
           (steady_well_behaved 3) toy_store Hlimit Hvf).
Defined.

(** ** The moving average *)

Lemma slice_from_length {X : Type} (l : list X) (start : Z) :
  length (slice_from l start)
  = if bool_decide (start < 0)%Z
    then (length l - Z.to_nat (len l + start))%nat
    else (length l - Z.to_nat start)%nat.
Proof. unfold slice_from. case_bool_decide; by rewrite length_drop. Qed.

Lemma slice_to_length {X : Type} (l : list X) (stop : Z) :
  length (slice_to l stop)
  = if bool_decide (stop < 0)%Z
    then (length l `min` Z.to_nat (len l + stop))%nat
    else (length l `min` Z.to_nat stop)%nat.
Proof.
  unfold slice_to. case_bool_decide; rewrite length_take; lia.
Qed.

Lemma slices_same_length {X : Type} (l : list X) (n : Z) :
  n ≠ 0%Z -> length (slice_from l n) = length (slice_to l (- n)).
Proof.
  intros Hn. rewrite slice_from_length, slice_to_length. unfold len.
  repeat case_bool_decide; lia.
Qed.

Section MovingAverageFacts.
Context {A : Type} `{Scalar A} `{WindowOps A}.

Lemma cumsum_from_length (acc : A) (l : list A) :
  length (cumsum_from acc l) = length l.
Proof.
  revert acc. induction l as [|x l IH]; intros acc; [done|].
  cbn [cumsum_from length]. by rewrite IH.
Qed.

Lemma np_cumsum_length (a : list A) : length (np_cumsum a) = length a.
Proof. destruct a; [done|]. cbn [np_cumsum length]. by rewrite cumsum_from_length. Qed.

(** Away from [n = 0] the two slices have the same size, so neither the
    subtraction nor the assignment raises. *)
Lemma moving_average_nonzero (a : list A) (n : Z) :
  n ≠ 0%Z ->
  moving_average a n =
    Ok (np_divide
          (take (length a - length (slice_from (np_cumsum a) n)) (np_cumsum a)
           ++ zip_with ssub (slice_from (np_cumsum a) n)
                (slice_to (np_cumsum a) (- n))) n).
Proof.
  intros Hn. unfold moving_average, np_subtract.
  rewrite bool_decide_eq_true_2 by (by apply slices_same_length).
  cbn [mbind result_bind]. unfold assign_from.
  rewrite bool_decide_eq_true_2.
  - cbn [mbind result_bind]. by rewrite np_cumsum_length.
  - rewrite length_zip_with, <- slices_same_length by done. lia.
Qed.

Lemma moving_average_nonzero_length (a : list A) (n : Z) :
  n ≠ 0%Z ->
  length (np_divide
            (take (length a - length (slice_from (np_cumsum a) n)) (np_cumsum a)
             ++ zip_with ssub (slice_from (np_cumsum a) n)
                  (slice_to (np_cumsum a) (- n))) n)
  = length a.
Proof.
  intros Hn. unfold np_divide.
  rewrite length_fmap, length_app, length_take, length_zip_with.
  rewrite <- slices_same_length by done.
  rewrite np_cumsum_length.
  pose proof (slice_from_length (np_cumsum a) n) as Hlen.
  rewrite np_cumsum_length in Hlen. repeat case_bool_decide; lia.
Qed.

(** X16.  For a window [n] other than zero, negative ones included,
    [moving_average(a, n)] returns an array with as many entries as [a]:
    it does not shorten the curve by the window. *)
Theorem moving_average_length (a : list A) (n : Z) :
  n ≠ 0%Z ->
  exists out : list A, moving_average a n = Ok out /\ length out = length a.
Proof.
  intros Hn. eexists. split; [by apply moving_average_nonzero|].
  by apply moving_average_nonzero_length.
Qed.

(** X17.  For the window [n = 0], [moving_average] raises [ValueError]
    on every input that is not empty (the two slices cannot be broadcast
    together, or the difference does not fit the slice assigned to), and it
    returns the empty array on the empty input. *)
Theorem moving_average_zero (a : list A) :
  moving_average a 0 = match a with [] => Ok [] | _ => Raise ValueError end.
Proof.
  destruct a as [|x [|y a]]; try reflexivity.
Qed.

(** X18.  For a window [n >= 1], entry [i] of [moving_average(a, n)] is
    [cumsum(a)[i] / n] for [i < n] and
    [(cumsum(a)[i] - cumsum(a)[i-n]) / n] for [i >= n], in the arithmetic
    of the array. *)
Theorem moving_average_entries (a : list A) (n : Z) :
  (1 <= n)%Z ->
  exists out : list A,
    moving_average a n = Ok out /\
    length out = length a /\
    (forall (i : nat) (c : A),
       (Z.of_nat i < n)%Z -> np_cumsum a !! i = Some c ->
       out !! i = Some (squot c (sof_int n))) /\
    (forall (i : nat) (c c' : A),
       (n <= Z.of_nat i)%Z ->
       np_cumsum a !! i = Some c ->
       np_cumsum a !! (i - Z.to_nat n)%nat = Some c' ->
       out !! i = Some (squot (ssub c c') (sof_int n))).
Proof.
  intros Hn.
  assert (n ≠ 0%Z) as Hn0 by lia.
  eexists. split; [by apply moving_average_nonzero|].
  split; [by apply moving_average_nonzero_length|].
  set (ret := np_cumsum a) in *.
  assert (length ret = length a) as Hret by apply np_cumsum_length.
  assert (slice_from ret n = drop (Z.to_nat n) ret) as Hfrom.
  { unfold slice_from. by rewrite bool_decide_eq_false_2 by lia. }
  assert (slice_to ret (- n) = take (length a - Z.to_nat n) ret) as Hto.
  { unfold slice_to, len. rewrite bool_decide_eq_true_2 by lia.
    f_equal. lia. }
  rewrite Hfrom, Hto, length_drop, Hret.
  unfold np_divide. split.
  - intros i c Hi Hc. rewrite list_lookup_fmap.
    assert (i < length a)%nat as Hia
      by (rewrite <- Hret; by eapply lookup_lt_Some).
    rewrite lookup_app_l by (rewrite length_take; lia).
    rewrite lookup_take_lt by lia. by rewrite Hc.
  - intros i c c' Hi Hc Hc'. rewrite list_lookup_fmap.
    assert (i < length a)%nat as Hia
      by (rewrite <- Hret; by eapply lookup_lt_Some).
    rewrite lookup_app_r by (rewrite length_take; lia).
    rewrite length_take, Hret.
    replace (i - (length a - (length a - Z.to_nat n)) `min` length a)%nat
      with (i - Z.to_nat n)%nat by lia.
    rewrite lookup_zip_with, lookup_drop, lookup_take_lt by lia.
    replace (Z.to_nat n + (i - Z.to_nat n))%nat with i by lia.
    by rewrite Hc, Hc'.
Qed.

End MovingAverageFacts.

Lemma moving_average_length_witness :
  exists out : list float,
    moving_average [1; 2; 3; 4; 5; 6]%float (-2) = Ok out /\
    length out = 6%nat.
Proof.
  assert ((-2)%Z ≠ 0%Z) as Hn by lia.
  exact (moving_average_length [1; 2; 3; 4; 5; 6]%float (-2) Hn).
Defined.

Lemma moving_average_entries_witness :
  exists out : list float,
    moving_average [1; 2; 3; 4; 5; 6]%float 2 = Ok out /\
    length out = 6%nat /\
    (forall (i : nat) (c : float),
       (Z.of_nat i < 2)%Z -> [1; 3; 6; 10; 15; 21]%float !! i = Some c ->
       out !! i = Some (c / 2)%float) /\
    (forall (i : nat) (c c' : float),
       (2 <= Z.of_nat i)%Z ->
       [1; 3; 6; 10; 15; 21]%float !! i = Some c ->
       [1; 3; 6; 10; 15; 21]%float !! (i - 2)%nat = Some c' ->
       out !! i = Some ((c - c') / 2)%float).
Proof.
  assert (1 <= 2)%Z as Hn by lia.
  exact (moving_average_entries [1; 2; 3; 4; 5; 6]%float 2 Hn).
Defined.

(** Exact arithmetic: the windows *)





